(** * Aurora client command context: job-key parsing, listing and resolution

    A shallow embedding of
    [src/main/python/apache/aurora/client/cli/context.py]
    (class [AuroraCommandContext]) together with the properties of its
    API-handle cache, partial job-key parser, job lister, job resolver and
    response check. *)

From Stdlib Require Import String Ascii List Bool Arith Lia.
From stdpp Require Import base option list gmap strings.

Local Open Scope string_scope.
Local Open Scope list_scope.

(** ** Python string primitives used by the module *)

Module PyStr.

(** [c in s] for a one-character needle [c]. *)
Fixpoint contains (c : ascii) (s : string) : bool :=
  match s with
  | EmptyString => false
  | String a rest => if Ascii.eqb a c then true else contains c rest
  end.

(** [s.split(sep)] for a one-character separator: never returns the
    empty list, an empty input gives one empty segment. *)
Fixpoint split (sep : ascii) (s : string) : list string :=
  match s with
  | EmptyString => [EmptyString]
  | String a rest =>
      if Ascii.eqb a sep then EmptyString :: split sep rest
      else match split sep rest with
           | [] => [String a EmptyString]
           | seg :: segs => String a seg :: segs
           end
  end.

(** [sep.join(parts)]. *)
Definition join (sep : ascii) (parts : list string) : string :=
  String.concat (String sep EmptyString) parts.

End PyStr.

Definition star : ascii := "*"%char.
Definition question : ascii := "?"%char.
Definition slash : ascii := "/"%char.

(** ** Exceptions and exit classifications *)

(** The exit classifications of [apache.aurora.client.cli]; only their
    identity matters here. *)
Inductive exit_code : Type :=
  | EXIT_NETWORK_ERROR
  | EXIT_INVALID_PARAMETER
  | EXIT_COMMAND_FAILURE.

(** Modelled from the spec: [ResponseCode] ([gen.apache.aurora.ttypes] is
    generated code, not among the sources).  "responseCode: enum{OK,
    ERROR,...}"; [OTHER v] stands for the values the spec leaves unnamed. *)
Inductive ResponseCode : Type :=
  | OK
  | ERROR
  | OTHER (v : nat).

#[global] Instance ResponseCode_eq_dec : EqDecision ResponseCode.
Proof. solve_decision. Defined.

#[global] Instance ResponseCode_countable : Countable ResponseCode.
Proof.
  refine (inj_countable'
            (fun c => match c with OK => 0 | ERROR => 1 | OTHER v => S (S v) end)
            (fun n => match n with 0 => OK | 1 => ERROR | S (S v) => OTHER v end) _).
  intros []; reflexivity.
Defined.

(** The key a dictionary was subscripted with: a cluster name for
    [self.apis], a response code for [ResponseCode._VALUES_TO_NAMES]. *)
Inductive dict_key : Type :=
  | ClusterKey (cluster : string)
  | CodeKey (code : ResponseCode).

(** What a call can raise: the context's [CommandError(code, msg)], the
    interpreter errors the module can run into, the failure of the
    [AuroraJobKey] constructor, and whatever the external collaborators
    raise ([ClientError] stands for an exception of their own; they may as
    well raise any of the others).  [LoopBound] is not a Python exception:
    it marks a loop of the model cut off by its iteration bound, and is
    shown below never to occur. *)
Inductive exn : Type :=
  | CommandError (code : exit_code) (msg : string)
  | NameError (name : string)
  | TypeError (msg : string)
  | AttributeError (msg : string)
  | KeyError (key : dict_key)
  | InvalidJobKey
  | ClientError (msg : string)
  | LoopBound.

(** The names the module binds with
    [from apache.aurora.client.cli import (Context, EXIT_NETWORK_ERROR,
    EXIT_INVALID_PARAMETER, EXIT_NETWORK_ERROR)], in import order. *)
Definition module_globals : list (string * exit_code) :=
  [ ("EXIT_NETWORK_ERROR", EXIT_NETWORK_ERROR);
    ("EXIT_INVALID_PARAMETER", EXIT_INVALID_PARAMETER);
    ("EXIT_NETWORK_ERROR", EXIT_NETWORK_ERROR) ].

(** Reading a global name: the last binding wins, an unbound name raises
    [NameError]. *)
Fixpoint lookup_global_in (env : list (string * exit_code)) (name : string)
  : option exit_code :=
  match env with
  | [] => None
  | (n, v) :: rest =>
      match lookup_global_in rest name with
      | Some v' => Some v'
      | None => if String.eqb n name then Some v else None
      end
  end.

Definition lookup_global (name : string) : exn + exit_code :=
  match lookup_global_in module_globals name with
  | Some v => inr v
  | None => inl (NameError name)
  end.

(** ** Data *)

(** [PartialJobKey = namedtuple('PartialJobKey', ['cluster', 'role', 'env', 'name'])] *)
Record PartialJobKey : Type := mkPartialJobKey {
  pk_cluster : string;
  pk_role : string;
  pk_env : string;
  pk_name : string
}.

Definition pk_fields (k : PartialJobKey) : list string :=
  [pk_cluster k; pk_role k; pk_env k; pk_name k].

(** [PartialJobKey( *parts )]: the namedtuple constructor takes exactly four
    positional arguments. *)
Definition PartialJobKey_of_parts (parts : list string) : exn + PartialJobKey :=
  match parts with
  | [c; r; e; n] => inr (mkPartialJobKey c r e n)
  | _ => inl (TypeError "__new__() takes exactly 5 arguments")
  end.

(** ** parse_partial_jobkey *)

(** [while len(parts) < 4: parts.append('*')], with the number of iterations
    bounded by [fuel]; [None] when the bound is reached with the loop
    condition still true. *)
Fixpoint pad_loop (fuel : nat) (parts : list string) : option (list string) :=
  if (List.length parts <? 4)%nat then
    match fuel with
    | O => None
    | S fuel' => pad_loop fuel' (parts ++ ["*"])
    end
  else Some parts.

Definition too_many_segments : string :=
  "Job key must have no more than 4 segments".

Definition parse_partial_jobkey (key : string) : exn + PartialJobKey :=
  let parts := PyStr.split slash key in
  if (4 <? List.length parts)%nat then
    match lookup_global "EXIT_INVALID_PARAMETER" with
    | inl e => inl e
    | inr code => inl (CommandError code too_many_segments)
    end
  else
    match pad_loop 4 parts with
    | Some parts' => PartialJobKey_of_parts parts'
    | None => inl LoopBound
    end.

(** Modelled from the spec: [AuroraJobKey]
    ([apache.aurora.common.aurora_job_key] is imported but is not among the
    sources).  "JobKey: 4 non-empty string fields — cluster, role,
    environment, name — uniquely identifying one job.  Invariant: no field
    is empty or contains a wildcard character."  The record holds the four
    fields of a key; keys are made by [AuroraJobKey_init] below, which keeps
    the invariant. *)
Record AuroraJobKey : Type := mkAuroraJobKey {
  jk_cluster : string;
  jk_role : string;
  jk_env : string;
  jk_name : string
}.

Definition jk_fields (k : AuroraJobKey) : list string :=
  [jk_cluster k; jk_role k; jk_env k; jk_name k].

(** Modelled from the spec: what a field of a [JobKey] must be, "no field
    is empty or contains a wildcard character", the wildcard characters
    being those of the spec's matching, "[*] matches any substring, [?] any
    single character". *)
Definition valid_field (f : string) : bool :=
  negb (String.eqb f "")
  && negb (PyStr.contains star f)
  && negb (PyStr.contains question f).

(** Modelled from the spec: the constructor
    [AuroraJobKey(cluster, role, env, name)].  It makes the key of its four
    arguments when each of them meets the invariant and fails otherwise; the
    spec does not name the exception, [InvalidJobKey] stands for it. *)
Definition AuroraJobKey_init (cluster role env name : string)
  : exn + AuroraJobKey :=
  if forallb valid_field [cluster; role; env; name]
  then inr (mkAuroraJobKey cluster role env name)
  else inl InvalidJobKey.

(** The payload of a listing, as the lister reads it:
    [resp.result.getJobsResult.configs] and, of each [job] in there,
    [job.key.role], [job.key.environment] and [job.key.name].  A
    struct-valued field that was not set reads as Python's [None], written
    [None] here. *)
Record JobKey : Type := mkJobKey {
  key_role : string;
  key_environment : string;
  key_name : string
}.

Record JobConfiguration : Type := mkJobConfiguration {
  job_key : option JobKey
}.

Record GetJobsResult : Type := mkGetJobsResult {
  configs : option (list JobConfiguration)
}.

Record Result : Type := mkResult {
  getJobsResult : option GetJobsResult
}.

(** The response envelope of a scheduler call. *)
Record Response : Type := mkResponse {
  responseCode : ResponseCode;
  message : string;
  result : option Result
}.

(** A scheduler client as [make_client] returns it.  [client_id] stands for
    the identity of the Python object: two clients are the same instance
    iff they are equal here. *)
Record Client : Type := mkClient {
  client_id : nat;
  client_cluster : string
}.

(** ** The world outside the module *)

(** What the module does to the outside, in the order it happens. *)
Inductive event : Type :=
  | MakeClient (cluster : string)
  | GetJobs (api : Client) (role : option string)
  | LogInfo (msg : string).

(** The collaborators the module imports and calls.  Their answers may
    depend on everything that has happened so far. *)
Record World : Type := mkWorld {
  (** [CLUSTERS], iterated: the registered cluster names. *)
  CLUSTERS : list string;
  (** [fnmatch.fnmatch(name, pat)] of the Python standard library. *)
  fnmatch : string -> string -> bool;
  (** [ResponseCode._VALUES_TO_NAMES], a dictionary. *)
  VALUES_TO_NAMES : gmap ResponseCode string;
  (** [make_client(cluster)]: [Some e] when the construction raises [e]. *)
  make_client_raises : list event -> string -> option exn;
  (** [api.get_jobs(role)]: the exception the call raises, or the envelope
      the scheduler answers with. *)
  get_jobs_response : list event -> Client -> option string -> exn + Response
}.

(** The mutable state of a session: the context's [self.apis] dictionary
    and the trace of outside events. *)
Record state : Type := mkState {
  apis : gmap string Client;
  events : list event
}.

Definition initial_state : state := {| apis := ∅; events := [] |}.

(** ** A state-and-exception monad *)

(** A computation runs from a state to an outcome and the state it leaves
    behind; what was done before an exception stays done. *)
Definition M (A : Type) : Type := state -> (exn + A) * state.

Definition ret {A} (a : A) : M A := fun s => (inr a, s).

Definition raise {A} (e : exn) : M A := fun s => (inl e, s).

Definition bind {A B} (m : M A) (k : A -> M B) : M B :=
  fun s =>
    match m s with
    | (inl e, s') => (inl e, s')
    | (inr a, s') => k a s'
    end.

Notation "'let*' x := m 'in' k" := (bind m (fun x => k))
  (at level 10, x name, m at level 100, k at level 200).

Definition get_apis : M (gmap string Client) := fun s => (inr (apis s), s).

Definition set_api (cluster : string) (api : Client) : M unit :=
  fun s => (inr tt, {| apis := <[cluster := api]> (apis s); events := events s |}).

Definition emit (e : event) : M unit :=
  fun s => (inr tt, {| apis := apis s; events := events s ++ [e] |}).

Definition get_events : M (list event) := fun s => (inr (events s), s).

(** Evaluating a global name inside a computation. *)
Definition global (name : string) : M exit_code :=
  match lookup_global name with
  | inl e => raise e
  | inr v => ret v
  end.

(** A step that does not touch the session. *)
Definition lift {A} (r : exn + A) : M A := fun s => (r, s).

(** [obj.name]: reading an attribute of [None] raises. *)
Definition getattr {A} (obj : option A) (name : string) : exn + A :=
  match obj with
  | Some a => inr a
  | None => inl (AttributeError ("'NoneType' object has no attribute '" ++ name ++ "'"))
  end.

(** [iter(obj)] at the head of a [for]. *)
Definition iter {A} (obj : option (list A)) : exn + list A :=
  match obj with
  | Some l => inr l
  | None => inl (TypeError "'NoneType' object is not iterable")
  end.

(** [[AuroraJobKey(cluster, job.key.role, job.key.environment, job.key.name)
    for job in jobs]]: the keys are built job by job, the first failure
    ends the comprehension. *)
Fixpoint tagged_jobs (cluster : string) (jobs : list JobConfiguration)
  : exn + list AuroraJobKey :=
  match jobs with
  | [] => inr []
  | job :: rest =>
      match getattr (job_key job) "role" with
      | inl e => inl e
      | inr k =>
          match AuroraJobKey_init cluster (key_role k) (key_environment k)
                  (key_name k) with
          | inl e => inl e
          | inr jk =>
              match tagged_jobs cluster rest with
              | inl e => inl e
              | inr jks => inr (jk :: jks)
              end
          end
      end
  end.

(** [[AuroraJobKey(...) for job in resp.result.getJobsResult.configs]]: the
    jobs of one response, tagged with the cluster that was asked. *)
Definition tagged (cluster : string) (resp : Response)
  : exn + list AuroraJobKey :=
  match getattr (result resp) "getJobsResult" with
  | inl e => inl e
  | inr res =>
      match getattr (getJobsResult res) "configs" with
      | inl e => inl e
      | inr gjr =>
          match iter (configs gjr) with
          | inl e => inl e
          | inr jobs => tagged_jobs cluster jobs
          end
      end
  end.

(** ** The methods of [AuroraCommandContext] *)

Section Context_methods.

Context (W : World).

(** [make_client(cluster)] of [apache.aurora.client.factory]: the call is
    recorded; it either raises or returns a client that did not exist
    before. *)
Definition make_client (cluster : string) : M Client :=
  let* before := get_events in
  let* _ := emit (MakeClient cluster) in
  match make_client_raises W before cluster with
  | Some e => raise e
  | None => ret {| client_id := List.length before; client_cluster := cluster |}
  end.

(** [api.get_jobs(role)]: the call is recorded; it raises or returns an
    envelope. *)
Definition get_jobs (api : Client) (role : option string) : M Response :=
  let* before := get_events in
  let* _ := emit (GetJobs api role) in
  lift (get_jobs_response W before api role).

(** [self.apis[cluster]]. *)
Definition apis_getitem (cluster : string) : M Client :=
  let* d := get_apis in
  match d !! cluster with
  | Some api => ret api
  | None => raise (KeyError (ClusterKey cluster))
  end.

Definition get_api (cluster : string) : M Client :=
  let* d := get_apis in
  let* _ :=
    match d !! cluster with
    | None =>
        let* api := make_client cluster in
        set_api cluster api
    | Some _ => ret tt
    end in
  apis_getitem cluster.

(** [ResponseCode._VALUES_TO_NAMES[code]]: a code without an entry raises
    [KeyError]. *)
Definition VALUES_TO_NAMES_getitem (code : ResponseCode) : M string :=
  match VALUES_TO_NAMES W !! code with
  | Some name => ret name
  | None => raise (KeyError (CodeKey code))
  end.

Definition response_log_line (name : string) (resp : Response) : string :=
  "Response from scheduler: " ++ name ++ " (message: " ++ message resp ++ ")".

(** The argument of [log.info] is evaluated before the call, the table
    lookup included.  The body has no [return]: a call that does not raise
    evaluates to Python's [None], written [None] here; [Some r] would be a
    returned payload. *)
Definition check_and_log_response (resp : Response) : M (option Result) :=
  let* name := VALUES_TO_NAMES_getitem (responseCode resp) in
  let* _ := emit (LogInfo (response_log_line name resp)) in
  if bool_decide (responseCode resp ≠ OK) then
    let* code := global "EXIT_NETWORK_ERROR" in
    raise (CommandError code (message resp))
  else ret None.

(** The body of [for cluster in clusters] in [get_job_list], with the
    list [result] built so far. *)
Fixpoint get_job_list_loop (clusters : list string) (role : option string)
    (acc : list AuroraJobKey) : M (list AuroraJobKey) :=
  match clusters with
  | [] => ret acc
  | cluster :: rest =>
      let* api := get_api cluster in
      let* resp := get_jobs api role in
      if bool_decide (responseCode resp ≠ OK) then
        let* code := global "EXIT_COMMAND_FAILURE" in
        raise (CommandError code (message resp))
      else
        let* keys := lift (tagged cluster resp) in
        get_job_list_loop rest role (acc ++ keys)
  end.

(** [role] is [None] when the caller leaves the default [role=None]. *)
Definition get_job_list (clusters : list string) (role : option string)
  : M (list AuroraJobKey) :=
  let* role :=
    match role with
    | None => raise (TypeError "argument of type 'NoneType' is not iterable")
    | Some r => ret (if PyStr.contains star r then None else Some r)
    end in
  get_job_list_loop clusters role [].

Definition is_fully_bound (key : PartialJobKey) : bool :=
  negb (existsb (PyStr.contains star)
          [pk_cluster key; pk_role key; pk_env key; pk_name key]).

Definition filter_job_list (jobs : list AuroraJobKey) (role env name : string)
  : list AuroraJobKey :=
  List.filter (fun job => fnmatch W (jk_role job) role
                          && fnmatch W (jk_env job) env
                          && fnmatch W (jk_name job) name) jobs.

Definition clusters_to_search (key : PartialJobKey) : list string :=
  if String.eqb (pk_cluster key) "*" then CLUSTERS W else [pk_cluster key].

Definition get_jobs_matching_key (key : PartialJobKey) : M (list AuroraJobKey) :=
  let clusters := clusters_to_search key in
  if is_fully_bound key then
    let* k := lift (AuroraJobKey_init (pk_cluster key) (pk_role key)
                      (pk_env key) (pk_name key)) in
    ret [k]
  else
    let* jobs := get_job_list clusters (Some (pk_role key)) in
    ret (filter_job_list jobs (pk_role key) (pk_env key) (pk_name key)).

(** A session: successive [get_api] calls on one context, whatever their
    outcomes. *)
Fixpoint session (clusters : list string) (s : state) : state :=
  match clusters with
  | [] => s
  | cluster :: rest => session rest (snd (get_api cluster s))
  end.

End Context_methods.

(** How often [make_client(cluster)] has been invoked so far. *)
Definition is_construction (cluster : string) (e : event) : bool :=
  match e with
  | MakeClient c => String.eqb c cluster
  | _ => false
  end.

Definition constructions (cluster : string) (s : state) : nat :=
  List.length (List.filter (is_construction cluster) (events s)).

(** ** A concrete world to run the methods in *)

Module Sample.

(** The [*] / [?] / literal fragment of [fnmatch]: it agrees with the
    library function on patterns without a bracket expression. *)
Fixpoint glob (pat name : string) : bool :=
  match pat with
  | EmptyString =>
      match name with EmptyString => true | String _ _ => false end
  | String p pat' =>
      if Ascii.eqb p "*" then
        (fix any_suffix (n : string) : bool :=
           glob pat' n
           || match n with
              | EmptyString => false
              | String _ n' => any_suffix n'
              end) name
      else
        match name with
        | EmptyString => false
        | String c name' =>
            (Ascii.eqb p "?" || Ascii.eqb p c) && glob pat' name'
        end
  end.

Definition glob_fnmatch (name pat : string) : bool := glob pat name.

(** A name table with entries for [OK], [ERROR] and one more code. *)
Definition code_names : gmap ResponseCode string :=
  <[OK := "OK"]> (<[ERROR := "ERROR"]> (<[OTHER 0 := "WARNING"]> ∅)).

Definition job (r e n : string) : JobConfiguration :=
  {| job_key := Some {| key_role := r; key_environment := e; key_name := n |} |}.

Definition clusterA_jobs : list JobConfiguration :=
  [job "web" "prod" "frontend"; job "web" "staging" "frontend"].

(** The payload of a listing that holds [jobs]. *)
Definition listing (jobs : list JobConfiguration) : option Result :=
  Some {| getJobsResult := Some {| configs := Some jobs |} |}.

(** Every client can be built and every listing call returns; [clusterA]
    lists two jobs, [clusterB] answers [ERROR] without a payload, every
    other cluster lists nothing. *)
Definition world : World := {|
  CLUSTERS := ["clusterA"; "clusterB"];
  fnmatch := glob_fnmatch;
  VALUES_TO_NAMES := code_names;
  make_client_raises := fun _ _ => None;
  get_jobs_response := fun _ api _ =>
    if String.eqb (client_cluster api) "clusterA" then
      inr {| responseCode := OK; message := "ok"; result := listing clusterA_jobs |}
    else if String.eqb (client_cluster api) "clusterB" then
      inr {| responseCode := ERROR; message := "scheduler unreachable";
             result := None |}
    else
      inr {| responseCode := OK; message := "ok"; result := listing [] |}
|}.

(** A world in which the first construction of a client fails and later
    ones succeed. *)
Definition flaky_world : World := {|
  CLUSTERS := ["clusterA"];
  fnmatch := glob_fnmatch;
  VALUES_TO_NAMES := code_names;
  make_client_raises := fun before _ =>
    match before with
    | [] => Some (ClientError "connection refused")
    | _ => None
    end;
  get_jobs_response := fun _ _ _ =>
    inr {| responseCode := OK; message := "ok"; result := listing [] |}
|}.

(** A world whose schedulers misbehave, each in its own way: the listing
    call of [down] raises, [bare] answers [OK] without a payload, [odd]
    lists a job whose environment is empty. *)
Definition broken_world : World := {|
  CLUSTERS := ["down"; "bare"; "odd"];
  fnmatch := glob_fnmatch;
  VALUES_TO_NAMES := code_names;
  make_client_raises := fun _ _ => None;
  get_jobs_response := fun _ api _ =>
    if String.eqb (client_cluster api) "down" then
      inl (ClientError "timed out")
    else if String.eqb (client_cluster api) "bare" then
      inr {| responseCode := OK; message := "ok"; result := None |}
    else
      inr {| responseCode := OK; message := "ok";
             result := listing [job "web" "" "frontend"] |}
|}.

End Sample.

(** ** get_job_status *)

(** The envelope of a status call, down to
    [resp.result.scheduleStatusResult.tasks]; a field that was not set reads
    as [None].  [Task] stands for the scheduler's task records, which the
    context never looks into. *)
Record ScheduleStatusResult (Task : Type) : Type := mkScheduleStatusResult {
  ssr_tasks : option (list Task)
}.

Record StatusResult (Task : Type) : Type := mkStatusResult {
  scheduleStatusResult : option (ScheduleStatusResult Task)
}.

Record StatusResponse (Task : Type) : Type := mkStatusResponse {
  status_responseCode : ResponseCode;
  status_message : string;
  status_result : option (StatusResult Task)
}.

Arguments mkScheduleStatusResult {Task} _.
Arguments ssr_tasks {Task} _.
Arguments mkStatusResult {Task} _.
Arguments scheduleStatusResult {Task} _.
Arguments mkStatusResponse {Task} _ _ _.
Arguments status_responseCode {Task} _.
Arguments status_message {Task} _.
Arguments status_result {Task} _.

(** [resp.result.scheduleStatusResult.tasks]. *)
Definition read_tasks {Task : Type} (resp : StatusResponse Task)
  : exn + option (list Task) :=
  match getattr (status_result resp) "scheduleStatusResult" with
  | inl e => inl e
  | inr res =>
      match getattr (scheduleStatusResult res) "tasks" with
      | inl e => inl e
      | inr ssr => inr (ssr_tasks ssr)
      end
  end.

(** [tasks or None]: an absent or empty task list is falsy and gives
    [None]. *)
Definition tasks_or_none {Task : Type} (tasks : option (list Task))
  : option (list Task) :=
  match tasks with
  | Some (t :: ts) => Some (t :: ts)
  | Some [] => None
  | None => None
  end.

(** [check_status] is [api.check_status(key)]: the exception the call
    raises, or the scheduler's answer; either may depend on what has
    happened so far.  The trace records the constructions and the listings;
    the status call is not an event of it. *)
Definition get_job_status {Task : Type} (W : World)
    (check_status : list event -> Client -> AuroraJobKey -> exn + StatusResponse Task)
    (key : AuroraJobKey) : M (option (list Task)) :=
  let* api := get_api W (jk_cluster key) in
  let* before := get_events in
  let* resp := lift (check_status before api key) in
  if bool_decide (status_responseCode resp <> OK) then
    let* code := global "EXIT_INVALID_PARAMETER" in
    raise (CommandError code (status_message resp))
  else
    let* tasks := lift (read_tasks resp) in
    ret (tasks_or_none tasks).

(** ** Notions the properties are stated with *)

(** The number of occurrences of a character, [s.count(c)]. *)
Fixpoint count_char (c : ascii) (s : string) : nat :=
  match s with
  | EmptyString => 0
  | String a rest =>
      if Ascii.eqb a c then S (count_char c rest) else count_char c rest
  end.

(** The cache is well formed when every entry holds a client that a
    recorded [make_client] call built for that very cluster. *)
Definition cache_ok (s : state) : Prop :=
  forall c h, apis s !! c = Some h ->
    client_cluster h = c /\
    List.nth_error (events s) (client_id h) = Some (MakeClient c).

(** The clusters whose scheduler was asked for a listing, in the order of
    the calls. *)
Definition asked (evs : list event) : list string :=
  List.flat_map (fun e => match e with
                          | GetJobs api _ => [client_cluster api]
                          | _ => []
                          end) evs.

(** What one listing call contributes once the client is at hand: the
    exception of the call, the [NameError] that follows a code other than
    [OK], or the keys of the response. *)
Definition cluster_listing (W : World) (cluster : string) (api : Client)
    (role : option string) (before : list event) : exn + list AuroraJobKey :=
  match get_jobs_response W before api role with
  | inl e => inl e
  | inr resp =>
      if bool_decide (responseCode resp <> OK)
      then inl (NameError "EXIT_COMMAND_FAILURE")
      else tagged cluster resp
  end.

(** A scheduler that knows two tasks of one job and nothing else, one that
    rejects every status query, one whose status call raises, and one that
    answers [OK] without a payload. *)
Definition status_of (tasks : list string) : option (StatusResult string) :=
  Some (mkStatusResult (Some (mkScheduleStatusResult (Some tasks)))).

Definition sample_check_status (before : list event) (api : Client)
    (key : AuroraJobKey) : exn + StatusResponse string :=
  if String.eqb (jk_name key) "frontend"
  then inr (mkStatusResponse OK "ok" (status_of ["frontend-0"; "frontend-1"]))
  else inr (mkStatusResponse OK "no tasks" (status_of [])).

Definition rejecting_check_status (before : list event) (api : Client)
    (key : AuroraJobKey) : exn + StatusResponse string :=
  inr (mkStatusResponse ERROR "unknown job" None).

Definition failing_check_status (before : list event) (api : Client)
    (key : AuroraJobKey) : exn + StatusResponse string :=
  inl (ClientError "timed out").

Definition bare_check_status (before : list event) (api : Client)
    (key : AuroraJobKey) : exn + StatusResponse string :=
  inr (mkStatusResponse OK "ok" None).

(** * Properties *)

(** ** Strings: [split] and [join] *)

Module PyStrFacts.
Import PyStr.

Lemma split_nonempty sep s : split sep s <> [].
Proof.
  destruct s as [|a rest]; simpl; [discriminate|].
  destruct (Ascii.eqb a sep); [discriminate|].
  destruct (split sep rest); discriminate.
Qed.

Lemma split_length_pos sep s : (1 <= List.length (split sep s))%nat.
Proof.
  pose proof (split_nonempty sep s) as Hne.
  destruct (split sep s); [contradiction | simpl; lia].
Qed.

(** A string without the separator is its own single segment. *)
Lemma split_no_sep sep s : contains sep s = false -> split sep s = [s].
Proof.
  induction s as [|a rest IH]; simpl; [reflexivity|].
  destruct (Ascii.eqb a sep); [discriminate|].
  intros Hrest. rewrite (IH Hrest). reflexivity.
Qed.

(** Splitting stops at the first separator. *)
Lemma split_app_sep sep a rest :
  contains sep a = false ->
  split sep (String.append a (String sep rest)) = a :: split sep rest.
Proof.
  induction a as [|c a IH]; simpl.
  - intros _. rewrite Ascii.eqb_refl. reflexivity.
  - destruct (Ascii.eqb c sep); [discriminate|].
    intros Ha. rewrite (IH Ha). reflexivity.
Qed.

Lemma join_cons sep p q ps :
  join sep (p :: q :: ps) = String.append p (String sep (join sep (q :: ps))).
Proof. reflexivity. Qed.

(** [split] undoes [join] on segments free of the separator. *)
Lemma split_join sep parts :
  parts <> [] ->
  List.Forall (fun p => contains sep p = false) parts ->
  split sep (join sep parts) = parts.
Proof.
  intros Hne Hall. induction Hall as [|p ps Hp Hps IH]; [contradiction|].
  destruct ps as [|q ps].
  - simpl. apply split_no_sep, Hp.
  - rewrite join_cons, (split_app_sep sep p _ Hp).
    rewrite IH by discriminate. reflexivity.
Qed.

(** The segments [split] returns never contain the separator. *)
Lemma split_segments_no_sep sep s :
  List.Forall (fun p => contains sep p = false) (split sep s).
Proof.
  induction s as [|a rest IH]; simpl.
  - repeat constructor.
  - destruct (Ascii.eqb a sep) eqn:Ha.
    + constructor; [reflexivity | exact IH].
    + destruct (split sep rest) as [|seg segs].
      * constructor; [simpl; rewrite Ha; reflexivity | constructor].
      * inversion IH; subst.
        constructor; [|assumption]. simpl. rewrite Ha. assumption.
Qed.

End PyStrFacts.

(** ** parse_partial_jobkey *)

Lemma lookup_global_invalid_parameter :
  lookup_global "EXIT_INVALID_PARAMETER" = inr EXIT_INVALID_PARAMETER.
Proof. reflexivity. Qed.

Lemma lookup_global_network_error :
  lookup_global "EXIT_NETWORK_ERROR" = inr EXIT_NETWORK_ERROR.
Proof. reflexivity. Qed.

Lemma lookup_global_command_failure :
  lookup_global "EXIT_COMMAND_FAILURE" = inl (NameError "EXIT_COMMAND_FAILURE").
Proof. reflexivity. Qed.

(** The padding loop needs at most four iterations. *)
Lemma pad_loop_terminates parts :
  pad_loop 4 parts =
  Some (parts ++ List.repeat "*" (4 - List.length parts)).
Proof.
  destruct parts as [|a [|b [|c [|d l]]]]; try reflexivity.
  cbn. rewrite List.app_nil_r. reflexivity.
Qed.

(** C5. [parse_partial_jobkey] splits its input on [/]: an input with at
    most four segments parses, the first fields of the pattern are the
    segments in order and the remaining ones are the token [*]; an input
    with more than four segments raises
    [CommandError(EXIT_INVALID_PARAMETER, ...)]. *)
Theorem parse_partial_jobkey_segments (key : string) :
  let parts := PyStr.split slash key in
  let k := List.length parts in
  (1 <= k)%nat /\
  if (k <=? 4)%nat then
    exists p, parse_partial_jobkey key = inr p /\
              pk_fields p = parts ++ List.repeat "*" (4 - k)
  else
    parse_partial_jobkey key =
    inl (CommandError EXIT_INVALID_PARAMETER too_many_segments).
Proof.
  cbv zeta. split; [apply PyStrFacts.split_length_pos|].
  unfold parse_partial_jobkey.
  pose proof (PyStrFacts.split_nonempty slash key) as Hne.
  destruct (PyStr.split slash key) as [|a [|b [|c [|d [|e l]]]]];
    [contradiction | | | | | reflexivity];
    cbn; eexists; (split; [reflexivity|reflexivity]).
Qed.

Example parse_two_segments :
  parse_partial_jobkey "clusterA/web" = inr (mkPartialJobKey "clusterA" "web" "*" "*").
Proof. reflexivity. Qed.

Example parse_empty_string :
  parse_partial_jobkey "" = inr (mkPartialJobKey "" "*" "*" "*").
Proof. reflexivity. Qed.

Example parse_five_segments :
  parse_partial_jobkey "a/b/c/d/e" =
  inl (CommandError EXIT_INVALID_PARAMETER too_many_segments).
Proof. reflexivity. Qed.

(** ** get_api: the handle cache *)

Section Cache.

Context (W : World).

Lemma get_api_cached c h s :
  apis s !! c = Some h -> get_api W c s = (inr h, s).
Proof.
  intros Hc. unfold get_api, apis_getitem, bind, get_apis, ret.
  rewrite Hc. simpl. rewrite Hc. reflexivity.
Qed.

Lemma get_api_built c s :
  apis s !! c = None ->
  make_client_raises W (events s) c = None ->
  let h := {| client_id := List.length (events s); client_cluster := c |} in
  get_api W c s =
  (inr h, {| apis := <[c := h]> (apis s); events := events s ++ [MakeClient c] |}).
Proof.
  intros Hc Hok. unfold get_api, apis_getitem, make_client, bind, get_apis,
    get_events, emit, set_api, ret.
  rewrite Hc. simpl. rewrite Hok. simpl. rewrite lookup_insert_eq. reflexivity.
Qed.

Lemma get_api_failed c e s :
  apis s !! c = None ->
  make_client_raises W (events s) c = Some e ->
  get_api W c s =
  (inl e, {| apis := apis s; events := events s ++ [MakeClient c] |}).
Proof.
  intros Hc Hko. unfold get_api, make_client, bind, get_apis, get_events,
    emit, raise.
  rewrite Hc. simpl. rewrite Hko. reflexivity.
Qed.

Lemma constructions_emit c c' a evs :
  constructions c {| apis := a; events := evs ++ [MakeClient c'] |} =
  (List.length (List.filter (is_construction c) evs)
   + if String.eqb c' c then 1 else 0)%nat.
Proof.
  unfold constructions. simpl. rewrite List.filter_app, List.length_app.
  simpl. destruct (String.eqb c' c); reflexivity.
Qed.

(** A call for any cluster leaves an existing entry alone and does not
    construct a client for its cluster again. *)
Lemma get_api_keeps c h c' s :
  apis s !! c = Some h ->
  apis (snd (get_api W c' s)) !! c = Some h /\
  constructions c (snd (get_api W c' s)) = constructions c s.
Proof.
  intros Hc. destruct (apis s !! c') as [h'|] eqn:Hc'.
  - rewrite (get_api_cached _ _ _ Hc'). simpl. auto.
  - assert (Hne : c' <> c) by (intros ->; congruence).
    assert (Heqb : String.eqb c' c = false) by (apply String.eqb_neq, Hne).
    destruct (make_client_raises W (events s) c') as [e|] eqn:Hm.
    + rewrite (get_api_failed _ _ _ Hc' Hm). simpl. split; [assumption|].
      rewrite constructions_emit, Heqb. unfold constructions. simpl. lia.
    + rewrite (get_api_built _ _ Hc' Hm). simpl. split.
      * rewrite lookup_insert_ne by assumption. assumption.
      * rewrite constructions_emit, Heqb. unfold constructions. simpl. lia.
Qed.

Lemma session_keeps c h cs s :
  apis s !! c = Some h ->
  apis (session W cs s) !! c = Some h /\
  constructions c (session W cs s) = constructions c s.
Proof.
  revert s. induction cs as [|c' cs IH]; intros s Hc; simpl; [auto|].
  destruct (get_api_keeps c h c' s Hc) as [Hk Hn].
  destruct (IH _ Hk) as [Hk' Hn']. split; [assumption | congruence].
Qed.

(** C7. A successful [get_api(cluster)] leaves the handle in the cache;
    every later call for that cluster in the session, whatever was asked
    in between, returns that same instance and constructs nothing, so
    [make_client] ran once for it if the entry was missing and not at all
    otherwise.  A call whose construction fails leaves the cache as it
    was, without an entry for the cluster, and the next call invokes
    [make_client] again. *)
Theorem get_api_cache (c : string) (s : state) :
  match get_api W c s with
  | (inr h, s1) =>
      apis s1 !! c = Some h /\
      constructions c s1 =
        (constructions c s + match apis s !! c with Some _ => 0 | None => 1 end)%nat /\
      forall cs, let s2 := session W cs s1 in
        get_api W c s2 = (inr h, s2) /\ constructions c s2 = constructions c s1
  | (inl e, s1) =>
      make_client_raises W (events s) c = Some e /\
      apis s1 = apis s /\ apis s1 !! c = None /\
      constructions c (snd (get_api W c s1)) = S (constructions c s1)
  end.
Proof.
  destruct (apis s !! c) as [h|] eqn:Hc.
  - rewrite (get_api_cached _ _ _ Hc). split; [assumption|]. split; [lia|].
    intros cs s2. destruct (session_keeps c h cs s Hc) as [Hk Hn].
    split; [apply get_api_cached, Hk | exact Hn].
  - destruct (make_client_raises W (events s) c) as [e|] eqn:Hm.
    + rewrite (get_api_failed _ _ _ Hc Hm). simpl.
      split; [reflexivity|]. split; [reflexivity|]. split; [assumption|].
      set (s1 := {| apis := apis s; events := events s ++ [MakeClient c] |}).
      assert (Hc1 : apis s1 !! c = None) by exact Hc.
      destruct (make_client_raises W (events s1) c) as [e'|] eqn:Hm'.
      * rewrite (get_api_failed _ _ _ Hc1 Hm'). simpl.
        rewrite constructions_emit, String.eqb_refl.
        unfold constructions. simpl. lia.
      * rewrite (get_api_built _ _ Hc1 Hm'). simpl.
        rewrite constructions_emit, String.eqb_refl.
        unfold constructions. simpl. lia.
    + rewrite (get_api_built _ _ Hc Hm). cbv zeta.
      set (h := {| client_id := _ |}).
      set (s1 := {| apis := <[c:=h]> (apis s) |}).
      assert (Hc1 : apis s1 !! c = Some h) by apply lookup_insert_eq.
      split; [assumption|]. split.
      * unfold s1. rewrite constructions_emit, String.eqb_refl.
        unfold constructions. simpl. lia.
      * intros cs. destruct (session_keeps c h cs s1 Hc1) as [Hk Hn].
        split; [apply get_api_cached, Hk | exact Hn].
Qed.

End Cache.

Example get_api_twice_same_instance :
  let '(r1, s1) := get_api Sample.world "clusterA" initial_state in
  let '(r2, s2) := get_api Sample.world "clusterA" s1 in
  r1 = inr {| client_id := 0; client_cluster := "clusterA" |} /\
  r2 = r1 /\ events s2 = [MakeClient "clusterA"].
Proof. vm_compute. auto. Qed.

Example get_api_failure_retried :
  let '(r1, s1) := get_api Sample.flaky_world "clusterA" initial_state in
  let '(r2, s2) := get_api Sample.flaky_world "clusterA" s1 in
  r1 = inl (ClientError "connection refused") /\
  apis s1 !! "clusterA" = None /\
  r2 = inr {| client_id := 1; client_cluster := "clusterA" |} /\
  events s2 = [MakeClient "clusterA"; MakeClient "clusterA"].
Proof. vm_compute. auto. Qed.

(** ** check_and_log_response *)

(** C2 (as the code has it). [check_and_log_response] first looks the
    response code up in [ResponseCode._VALUES_TO_NAMES].  When the code has
    a name there, the call emits exactly one log record, made of that name
    and the message; on [OK] it then returns nothing (Python's [None], not
    the payload), on any other code it raises
    [CommandError(EXIT_NETWORK_ERROR, resp.message)] after the record was
    emitted.  When the code has no name, the lookup raises [KeyError] and
    nothing is logged.  The cache is untouched either way. *)
Theorem check_and_log_response_outcome (W : World) (resp : Response) (s : state) :
  check_and_log_response W resp s =
  match VALUES_TO_NAMES W !! responseCode resp with
  | Some name =>
      let line := ("Response from scheduler: " +:+ name
                   +:+ " (message: " +:+ message resp +:+ ")")%string in
      (if bool_decide (responseCode resp = OK) then inr None
       else inl (CommandError EXIT_NETWORK_ERROR (message resp)),
       {| apis := apis s; events := events s ++ [LogInfo line] |})
  | None => (inl (KeyError (CodeKey (responseCode resp))), s)
  end.
Proof.
  unfold check_and_log_response, VALUES_TO_NAMES_getitem, bind.
  destruct (VALUES_TO_NAMES W !! responseCode resp) as [name|]; [|reflexivity].
  cbv zeta. unfold ret at 1, emit.
  destruct (decide (responseCode resp = OK)) as [Hok|Hko].
  - rewrite (bool_decide_eq_false_2 (responseCode resp <> OK)) by tauto.
    rewrite (bool_decide_eq_true_2 _ Hok). reflexivity.
  - rewrite (bool_decide_eq_true_2 _ Hko).
    rewrite (bool_decide_eq_false_2 _ Hko). reflexivity.
Qed.

(** C2 fails as stated: on an [OK] envelope with a payload the call does
    not return the payload. *)
Lemma check_and_log_response_drops_payload :
  ~ (forall (W : World) (resp : Response) (s : state),
       responseCode resp = OK ->
       fst (check_and_log_response W resp s) = inr (result resp)).
Proof.
  intros H.
  specialize (H Sample.world
                (mkResponse OK "fine" (Sample.listing Sample.clusterA_jobs))
                initial_state eq_refl).
  vm_compute in H. discriminate H.
Qed.

Example check_ok_logs_once :
  check_and_log_response Sample.world
    (mkResponse OK "fine" (Sample.listing Sample.clusterA_jobs)) initial_state =
  (inr None,
   {| apis := ∅;
      events := [LogInfo "Response from scheduler: OK (message: fine)"] |}).
Proof. reflexivity. Qed.

Example check_error_logs_then_raises :
  check_and_log_response Sample.world
    (mkResponse ERROR "no such role" None) initial_state =
  (inl (CommandError EXIT_NETWORK_ERROR "no such role"),
   {| apis := ∅;
      events := [LogInfo "Response from scheduler: ERROR (message: no such role)"] |}).
Proof. reflexivity. Qed.

Example check_unnamed_code_raises_before_logging :
  check_and_log_response Sample.world
    (mkResponse (OTHER 7) "what" None) initial_state =
  (inl (KeyError (CodeKey (OTHER 7))), initial_state).
Proof. reflexivity. Qed.

(** ** The keys of a response *)

Lemma valid_field_spec (f : string) :
  valid_field f = true <->
  f <> "" /\ PyStr.contains star f = false /\ PyStr.contains question f = false.
Proof.
  unfold valid_field. rewrite !Bool.andb_true_iff, !Bool.negb_true_iff.
  rewrite String.eqb_neq. tauto.
Qed.

Lemma forallb_valid_fields (fields : list string) :
  forallb valid_field fields = true <->
  List.Forall (fun f => f <> "" /\ PyStr.contains star f = false
                        /\ PyStr.contains question f = false) fields.
Proof.
  rewrite List.forallb_forall, List.Forall_forall.
  split; intros H f Hf; apply valid_field_spec, H, Hf.
Qed.

(** The constructor returns the key of its arguments, and only when all
    four meet the invariant. *)
Lemma AuroraJobKey_init_inr c r e n k :
  AuroraJobKey_init c r e n = inr k ->
  k = mkAuroraJobKey c r e n /\ forallb valid_field [c; r; e; n] = true.
Proof.
  unfold AuroraJobKey_init.
  destruct (forallb valid_field [c; r; e; n]); intros H; inversion H; auto.
Qed.

Lemma AuroraJobKey_init_inl c r e n err :
  AuroraJobKey_init c r e n = inl err ->
  err = InvalidJobKey /\ forallb valid_field [c; r; e; n] = false.
Proof.
  unfold AuroraJobKey_init.
  destruct (forallb valid_field [c; r; e; n]); intros H; inversion H; auto.
Qed.

Lemma AuroraJobKey_init_valid c r e n :
  forallb valid_field [c; r; e; n] = true ->
  AuroraJobKey_init c r e n = inr (mkAuroraJobKey c r e n).
Proof. unfold AuroraJobKey_init. intros ->. reflexivity. Qed.

(** Every key made from a response carries the cluster that was asked and
    went through the constructor. *)
Lemma tagged_jobs_keys c jobs ks :
  tagged_jobs c jobs = inr ks ->
  List.Forall (fun k => jk_cluster k = c
                        /\ forallb valid_field (jk_fields k) = true) ks.
Proof.
  revert ks. induction jobs as [|job rest IH]; intros ks; simpl.
  - intros H. inversion H. constructor.
  - destruct (getattr (job_key job) "role") as [e|jk]; [discriminate|].
    destruct (AuroraJobKey_init c _ _ _) as [e|k] eqn:Hk; [discriminate|].
    destruct (tagged_jobs c rest) as [e|ks']; [discriminate|].
    intros H. inversion H; subst ks. constructor; [|apply IH; reflexivity].
    apply AuroraJobKey_init_inr in Hk. destruct Hk as [-> Hv]. auto.
Qed.

Lemma tagged_keys c resp ks :
  tagged c resp = inr ks ->
  List.Forall (fun k => jk_cluster k = c
                        /\ forallb valid_field (jk_fields k) = true) ks.
Proof.
  unfold tagged.
  destruct (getattr (result resp) _) as [e|res]; [discriminate|].
  destruct (getattr (getJobsResult res) _) as [e|gjr]; [discriminate|].
  destruct (iter (configs gjr)) as [e|jobs]; [discriminate|].
  apply tagged_jobs_keys.
Qed.

Lemma getattr_error {A} (obj : option A) name e :
  getattr obj name = inl e -> exists msg, e = AttributeError msg.
Proof. destruct obj; simpl; intros H; inversion H. eauto. Qed.

(** Making the keys fails only on a missing part of the payload or in the
    constructor. *)
Lemma tagged_jobs_errors c jobs e :
  tagged_jobs c jobs = inl e ->
  (exists msg, e = AttributeError msg) \/ e = InvalidJobKey.
Proof.
  induction jobs as [|job rest IH]; simpl; [discriminate|].
  destruct (getattr (job_key job) "role") as [e'|jk] eqn:Hj.
  - intros H. inversion H; subst e'. left. apply (getattr_error _ _ _ Hj).
  - destruct (AuroraJobKey_init c _ _ _) as [e'|k] eqn:Hk.
    + intros H. inversion H; subst e'. right.
      apply (AuroraJobKey_init_inl _ _ _ _ _ Hk).
    + destruct (tagged_jobs c rest) as [e'|ks']; [|discriminate].
      intros H. inversion H; subst e'. apply IH. reflexivity.
Qed.

Lemma tagged_errors c resp e :
  tagged c resp = inl e ->
  (exists msg, e = AttributeError msg)
  \/ e = TypeError "'NoneType' object is not iterable"
  \/ e = InvalidJobKey.
Proof.
  unfold tagged.
  destruct (getattr (result resp) _) as [e'|res] eqn:H1.
  { intros H. inversion H; subst e'. left. apply (getattr_error _ _ _ H1). }
  destruct (getattr (getJobsResult res) _) as [e'|gjr] eqn:H2.
  { intros H. inversion H; subst e'. left. apply (getattr_error _ _ _ H2). }
  destruct (configs gjr) as [jobs|]; simpl.
  - intros H. destruct (tagged_jobs_errors _ _ _ H); auto.
  - intros H. inversion H. auto.
Qed.

Lemma cluster_listing_keys (W : World) c api role evs ks :
  cluster_listing W c api role evs = inr ks ->
  List.Forall (fun k => jk_cluster k = c
                        /\ forallb valid_field (jk_fields k) = true) ks.
Proof.
  unfold cluster_listing.
  destruct (get_jobs_response W evs api role) as [e|resp]; [discriminate|].
  destruct (bool_decide (responseCode resp <> OK)); [discriminate|].
  apply tagged_keys.
Qed.

(** ** get_job_list *)

Section Lister.

Context (W : World).

(** One iteration of the loop, spelled out. *)
Lemma get_job_list_loop_step c rest role acc s :
  get_job_list_loop W (c :: rest) role acc s =
  match get_api W c s with
  | (inl e, s1) => (inl e, s1)
  | (inr api, s1) =>
      let s2 := {| apis := apis s1; events := events s1 ++ [GetJobs api role] |} in
      match cluster_listing W c api role (events s1) with
      | inl e => (inl e, s2)
      | inr keys => get_job_list_loop W rest role (acc ++ keys) s2
      end
  end.
Proof.
  simpl. unfold bind at 1. destruct (get_api W c s) as [[e|api] s1]; [reflexivity|].
  unfold bind at 1. unfold cluster_listing. simpl.
  destruct (get_jobs_response W (events s1) api role) as [e|resp]; [reflexivity|].
  destruct (bool_decide (responseCode resp <> OK)); [reflexivity|].
  unfold bind at 1, lift. destruct (tagged c resp); reflexivity.
Qed.

Lemma get_api_events c s :
  events (snd (get_api W c s)) =
  events s ++ match apis s !! c with Some _ => [] | None => [MakeClient c] end.
Proof.
  destruct (apis s !! c) as [h|] eqn:Hc.
  - rewrite (get_api_cached W _ _ _ Hc). simpl. rewrite List.app_nil_r. reflexivity.
  - destruct (make_client_raises W (events s) c) as [e|] eqn:Hm.
    + rewrite (get_api_failed W _ _ _ Hc Hm). reflexivity.
    + rewrite (get_api_built W _ _ Hc Hm). reflexivity.
Qed.

(** Every remote listing call of the loop carries the loop's [role]. *)
Lemma get_job_list_loop_calls clusters role acc s :
  exists new,
    events (snd (get_job_list_loop W clusters role acc s)) = events s ++ new /\
    forall api r, List.In (GetJobs api r) new -> r = role.
Proof.
  revert acc s. induction clusters as [|c rest IH]; intros acc s.
  - exists []. simpl. rewrite List.app_nil_r. split; [reflexivity | intros ? ? []].
  - rewrite get_job_list_loop_step.
    pose proof (get_api_events c s) as Hev.
    destruct (get_api W c s) as [[e|api] s1]; simpl in Hev.
    + eexists. split; [exact Hev|].
      intros api r Hin. destruct (apis s !! c); simpl in Hin;
        [contradiction | destruct Hin as [Heq|[]]; discriminate Heq].
    + cbv zeta.
      set (s2 := {| apis := apis s1;
                    events := events s1 ++ [GetJobs api role] |}).
      set (pre := match apis s !! c with Some _ => [] | None => [MakeClient c] end
                  ++ [GetJobs api role]).
      assert (Hs2 : events s2 = events s ++ pre).
      { unfold s2, pre. simpl. rewrite Hev, <- List.app_assoc. reflexivity. }
      assert (Hmk : forall a r, List.In (GetJobs a r) pre -> r = role).
      { intros a r Hin. apply List.in_app_or in Hin. destruct Hin as [Hin|Hin].
        - destruct (apis s !! c); simpl in Hin;
            [contradiction | destruct Hin as [Heq|[]]; discriminate Heq].
        - destruct Hin as [Heq|[]]. congruence. }
      destruct (cluster_listing W c api role (events s1)) as [e|keys].
      * exists pre. split; [exact Hs2 | exact Hmk].
      * destruct (IH (acc ++ keys) s2) as [new [Hnew Hall]].
        exists (pre ++ new). split.
        -- rewrite Hnew, Hs2, <- List.app_assoc. reflexivity.
        -- intros a r Hin. apply List.in_app_or in Hin. destruct Hin as [Hin|Hin];
             [apply (Hmk a r Hin) | apply (Hall a r Hin)].
Qed.

(** What a listing returns keeps a property that the keys it started from
    have and that the keys made for each of its clusters have. *)
Lemma get_job_list_loop_Forall (P : AuroraJobKey -> Prop) clusters role acc s ks s' :
  (forall c k, List.In c clusters -> jk_cluster k = c ->
               forallb valid_field (jk_fields k) = true -> P k) ->
  List.Forall P acc ->
  get_job_list_loop W clusters role acc s = (inr ks, s') ->
  List.Forall P ks.
Proof.
  revert acc s. induction clusters as [|c rest IH]; intros acc s HP Hacc Hrun.
  - simpl in Hrun. inversion Hrun; subst. exact Hacc.
  - rewrite get_job_list_loop_step in Hrun.
    destruct (get_api W c s) as [[e|api] s1]; [discriminate|].
    cbv zeta in Hrun.
    destruct (cluster_listing W c api role (events s1)) as [e|keys] eqn:Hl;
      [discriminate|].
    apply (IH _ _ (fun c' k Hc' => HP c' k (or_intror Hc'))) in Hrun; [exact Hrun|].
    apply List.Forall_app. split; [exact Hacc|].
    apply cluster_listing_keys in Hl.
    eapply List.Forall_impl; [|exact Hl].
    intros k [Hc Hv]. apply (HP c k (or_introl eq_refl) Hc Hv).
Qed.

(** A listing that returns holds what was there before and jobs tagged
    with queried clusters, nothing else. *)
Lemma get_job_list_loop_clusters clusters role acc s ks s' :
  get_job_list_loop W clusters role acc s = (inr ks, s') ->
  forall k, List.In k ks -> List.In k acc \/ List.In (jk_cluster k) clusters.
Proof.
  intros Hrun.
  apply List.Forall_forall.
  apply (get_job_list_loop_Forall _ _ _ _ _ _ _) with (3 := Hrun).
  - intros c k Hc Hk _. right. rewrite Hk. exact Hc.
  - apply List.Forall_forall. intros k Hk. left. exact Hk.
Qed.

(** Where every client can be built and every listing call yields keys,
    the listing returns. *)
Lemma get_job_list_loop_returns clusters role acc s :
  (forall evs c, make_client_raises W evs c = None) ->
  (forall evs c api r, exists keys, cluster_listing W c api r evs = inr keys) ->
  exists ks s', get_job_list_loop W clusters role acc s = (inr ks, s').
Proof.
  intros Hmk Hok. revert acc s.
  induction clusters as [|c rest IH]; intros acc s.
  - simpl. eauto.
  - rewrite get_job_list_loop_step.
    assert (Hapi : exists api s1, get_api W c s = (inr api, s1)).
    { destruct (apis s !! c) as [h|] eqn:Hc.
      - rewrite (get_api_cached W _ _ _ Hc). eauto.
      - rewrite (get_api_built W _ _ Hc (Hmk _ _)). eauto. }
    destruct Hapi as [api [s1 ->]]. cbv zeta.
    destruct (Hok (events s1) c api role) as [keys ->].
    apply IH.
Qed.

End Lister.

(** C10. Called with the declared default [role=None], [get_job_list]
    raises a [TypeError] at [if '*' in role] before any cluster is
    contacted: no client is built, no listing is requested, the cache and
    the trace are as before. *)
Theorem get_job_list_role_none (W : World) (clusters : list string) (s : state) :
  get_job_list W clusters None s =
  (inl (TypeError "argument of type 'NoneType' is not iterable"), s).
Proof. reflexivity. Qed.

(** What [get_job_list] hands to the loop as [role]. *)
Lemma get_job_list_unfold (W : World) clusters role s :
  get_job_list W clusters (Some role) s =
  get_job_list_loop W clusters
    (if PyStr.contains star role then None else Some role) [] s.
Proof. reflexivity. Qed.

(** C6 (as the code has it). Every listing call [get_job_list] makes
    passes the role argument on when it contains no [*] character, and
    passes [None] when it contains one, be it the token [*] itself or a
    longer pattern such as [a*]. *)
Theorem get_job_list_role_passed (W : World) (clusters : list string)
    (role : string) (s : state) :
  exists new,
    events (snd (get_job_list W clusters (Some role) s)) = events s ++ new /\
    forall api r, List.In (GetJobs api r) new ->
      r = if PyStr.contains star role then None else Some role.
Proof.
  rewrite get_job_list_unfold. apply get_job_list_loop_calls.
Qed.

(** C6 fails as stated: the role [a*] is not the wildcard token, yet the
    listing call that [get_job_list] makes for it receives no role. *)
Lemma get_job_list_star_pattern_not_passed :
  ~ (forall (W : World) (clusters : list string) (role : string) (s : state),
       exists new,
         events (snd (get_job_list W clusters (Some role) s)) = events s ++ new /\
         forall api r, List.In (GetJobs api r) new ->
           r = if String.eqb role "*" then None else Some role).
Proof.
  intros H.
  destruct (H Sample.world ["clusterA"] "a*" initial_state) as (new & Hnew & Hall).
  vm_compute in Hnew. subst new.
  specialize (Hall {| client_id := 0; client_cluster := "clusterA" |} None
                (or_intror (or_introl eq_refl))).
  discriminate Hall.
Qed.

Example get_job_list_literal_role_passed :
  events (snd (get_job_list Sample.world ["clusterA"] (Some "web") initial_state)) =
  [MakeClient "clusterA";
   GetJobs {| client_id := 0; client_cluster := "clusterA" |} (Some "web")].
Proof. reflexivity. Qed.

Example get_job_list_question_role_passed :
  events (snd (get_job_list Sample.world ["clusterA"] (Some "we?") initial_state)) =
  [MakeClient "clusterA";
   GetJobs {| client_id := 0; client_cluster := "clusterA" |} (Some "we?")].
Proof. reflexivity. Qed.

(** Fail-fast, in general: when the cluster at hand answers with a code
    other than [OK], the loop stops there with a [NameError] for the
    unbound global [EXIT_COMMAND_FAILURE], whatever [acc] holds; the jobs
    fetched so far are dropped and no [CommandError] is built. *)
Lemma get_job_list_loop_not_ok (W : World) c rest role acc s api s1 resp :
  get_api W c s = (inr api, s1) ->
  get_jobs_response W (events s1) api role = inr resp ->
  responseCode resp <> OK ->
  get_job_list_loop W (c :: rest) role acc s =
  (inl (NameError "EXIT_COMMAND_FAILURE"),
   {| apis := apis s1; events := events s1 ++ [GetJobs api role] |}).
Proof.
  intros Hapi Hresp Hko. rewrite get_job_list_loop_step, Hapi. cbv zeta.
  unfold cluster_listing. rewrite Hresp, (bool_decide_eq_true_2 _ Hko). reflexivity.
Qed.

(** C1 on the code. Listing [clusterA] (which answers [OK] with two jobs)
    and then [clusterB] (which answers [ERROR], message
    "scheduler unreachable") returns no job, but what is raised is
    [NameError: EXIT_COMMAND_FAILURE], not a [CommandError] carrying the
    classification and clusterB's message. *)
Theorem get_job_list_second_cluster_not_ok :
  let a := {| client_id := 0; client_cluster := "clusterA" |} in
  let b := {| client_id := 2; client_cluster := "clusterB" |} in
  let out := get_job_list Sample.world ["clusterA"; "clusterB"] (Some "*")
               initial_state in
  get_jobs_response Sample.world [MakeClient "clusterA"] a None =
    inr (mkResponse OK "ok" (Sample.listing Sample.clusterA_jobs)) /\
  get_jobs_response Sample.world
    [MakeClient "clusterA"; GetJobs a None; MakeClient "clusterB"] b None =
    inr (mkResponse ERROR "scheduler unreachable" None) /\
  fst out = inl (NameError "EXIT_COMMAND_FAILURE") /\
  fst out <> inl (CommandError EXIT_NETWORK_ERROR "scheduler unreachable") /\
  events (snd out) =
    [MakeClient "clusterA"; GetJobs a None; MakeClient "clusterB"; GetJobs b None].
Proof.
  cbv zeta. repeat split; try reflexivity. vm_compute. discriminate.
Qed.

(** ** get_jobs_matching_key *)

Lemma existsb_false_Forall {A} (f : A -> bool) (l : list A) :
  List.existsb f l = false <-> List.Forall (fun x => f x = false) l.
Proof.
  induction l as [|x l IH]; simpl.
  - split; [constructor | reflexivity].
  - rewrite Bool.orb_false_iff, IH. split.
    + intros [Hx Hl]. constructor; assumption.
    + intros H. inversion H; subst. split; assumption.
Qed.

Lemma is_fully_bound_fields (key : PartialJobKey) :
  is_fully_bound key = true <->
  List.Forall (fun f => PyStr.contains star f = false) (pk_fields key).
Proof.
  unfold is_fully_bound, pk_fields.
  rewrite Bool.negb_true_iff. apply existsb_false_Forall.
Qed.

(** The fully-bound path, spelled out: the constructor is all that runs. *)
Lemma get_jobs_matching_key_bound (W : World) (key : PartialJobKey) (s : state) :
  is_fully_bound key = true ->
  get_jobs_matching_key W key s =
  (match AuroraJobKey_init (pk_cluster key) (pk_role key) (pk_env key)
           (pk_name key) with
   | inl e => inl e
   | inr k => inr [k]
   end, s).
Proof.
  intros Hb. unfold get_jobs_matching_key. rewrite Hb. unfold bind, lift.
  destruct (AuroraJobKey_init _ _ _ _); reflexivity.
Qed.

(** Fields without [*] that are non-empty and without [?] are what the
    constructor accepts. *)
Lemma valid_fields_of_pattern (key : PartialJobKey) :
  List.Forall (fun f => PyStr.contains star f = false) (pk_fields key) ->
  List.Forall (fun f => f <> "" /\ PyStr.contains question f = false) (pk_fields key) ->
  forallb valid_field [pk_cluster key; pk_role key; pk_env key; pk_name key] = true.
Proof.
  intros Hstar Hok. fold (pk_fields key). apply forallb_valid_fields.
  rewrite List.Forall_forall in *. intros f Hf.
  destruct (Hok f Hf) as [Hne Hq]. auto.
Qed.



(** A pattern the parser makes of a raw key with an empty segment has no
    [*], and no job key: the constructor refuses it, and nothing is asked of
    any scheduler. *)
Example empty_field_pattern_makes_no_key :
  parse_partial_jobkey "a//b/c" = inr (mkPartialJobKey "a" "" "b" "c") /\
  get_jobs_matching_key Sample.world (mkPartialJobKey "a" "" "b" "c") initial_state =
  (inl InvalidJobKey, initial_state).
Proof. split; reflexivity. Qed.

(** The wildcard path, spelled out. *)
Lemma get_jobs_matching_key_unbound (W : World) (key : PartialJobKey) (s : state) :
  is_fully_bound key = false ->
  get_jobs_matching_key W key s =
  match get_job_list W (clusters_to_search W key) (Some (pk_role key)) s with
  | (inl e, s') => (inl e, s')
  | (inr jobs, s') =>
      (inr (filter_job_list W jobs (pk_role key) (pk_env key) (pk_name key)), s')
  end.
Proof.
  intros Hb. unfold get_jobs_matching_key. rewrite Hb. unfold bind.
  destruct (get_job_list W _ _ s) as [[e|jobs] s']; reflexivity.
Qed.

Lemma filter_job_list_In (W : World) jobs role env name k :
  List.In k (filter_job_list W jobs role env name) <->
  List.In k jobs /\ fnmatch W (jk_role k) role = true
  /\ fnmatch W (jk_env k) env = true /\ fnmatch W (jk_name k) name = true.
Proof.
  unfold filter_job_list. rewrite List.filter_In, !Bool.andb_true_iff. tauto.
Qed.

Lemma get_job_list_clusters (W : World) clusters role s ks s' :
  get_job_list W clusters (Some role) s = (inr ks, s') ->
  forall k, List.In k ks -> List.In (jk_cluster k) clusters.
Proof.
  rewrite get_job_list_unfold. intros Hrun k Hk.
  destruct (get_job_list_loop_clusters W _ _ _ _ _ _ Hrun k Hk) as [[]|Hin].
  exact Hin.
Qed.

(** C3 (as the code has it). When some field of the pattern contains [*]
    and the listing of the clusters to search (every registered cluster
    when the cluster field is [*], else the pattern's cluster alone)
    returns, [get_jobs_matching_key] returns, in listing order, exactly the
    listed keys whose role, env and name each [fnmatch] the pattern's
    field; each carries the name of a searched cluster. *)
Theorem get_jobs_matching_key_wildcard (W : World) (key : PartialJobKey)
    (s : state) (listing : list AuroraJobKey) (s' : state) :
  List.existsb (PyStr.contains star) (pk_fields key) = true ->
  get_job_list W (if String.eqb (pk_cluster key) "*" then CLUSTERS W
                  else [pk_cluster key])
               (Some (pk_role key)) s = (inr listing, s') ->
  exists found,
    get_jobs_matching_key W key s = (inr found, s') /\
    found = List.filter (fun job => fnmatch W (jk_role job) (pk_role key)
                                    && fnmatch W (jk_env job) (pk_env key)
                                    && fnmatch W (jk_name job) (pk_name key))
                        listing /\
    forall k, List.In k found <->
      List.In k listing /\
      fnmatch W (jk_role k) (pk_role key) = true /\
      fnmatch W (jk_env k) (pk_env key) = true /\
      fnmatch W (jk_name k) (pk_name key) = true /\
      List.In (jk_cluster k)
              (if String.eqb (pk_cluster key) "*" then CLUSTERS W
               else [pk_cluster key]).
Proof.
  intros Hw Hlist.
  assert (Hb : is_fully_bound key = false).
  { unfold is_fully_bound. unfold pk_fields in Hw. rewrite Hw. reflexivity. }
  eexists. split; [|split; [reflexivity|]].
  - rewrite (get_jobs_matching_key_unbound W key s Hb).
    unfold clusters_to_search. rewrite Hlist. reflexivity.
  - intros k. fold (filter_job_list W listing (pk_role key) (pk_env key) (pk_name key)).
    rewrite filter_job_list_In. split.
    + intros (Hin & Hr & He & Hn). repeat split; try assumption.
      apply (get_job_list_clusters W _ _ _ _ _ Hlist k Hin).
    + intros (Hin & Hr & He & Hn & _). auto.
Qed.

Lemma get_jobs_matching_key_wildcard_witness :
  let key := mkPartialJobKey "clusterA" "*" "prod" "*" in
  let a := {| client_id := 0; client_cluster := "clusterA" |} in
  let listing := [mkAuroraJobKey "clusterA" "web" "prod" "frontend";
                  mkAuroraJobKey "clusterA" "web" "staging" "frontend"] in
  let s' := {| apis := <["clusterA" := a]> ∅;
               events := [MakeClient "clusterA"; GetJobs a None] |} in
  get_job_list Sample.world ["clusterA"] (Some "*") initial_state = (inr listing, s') /\
  get_jobs_matching_key Sample.world key initial_state =
  (inr [mkAuroraJobKey "clusterA" "web" "prod" "frontend"], s').
Proof.
  cbv zeta. split; [reflexivity|].
  destruct (get_jobs_matching_key_wildcard Sample.world
              (mkPartialJobKey "clusterA" "*" "prod" "*") initial_state
              [mkAuroraJobKey "clusterA" "web" "prod" "frontend";
               mkAuroraJobKey "clusterA" "web" "staging" "frontend"]
              {| apis := <["clusterA" :=
                             {| client_id := 0; client_cluster := "clusterA" |}]> ∅;
                 events := [MakeClient "clusterA";
                            GetJobs {| client_id := 0; client_cluster := "clusterA" |}
                                    None] |}
              eq_refl eq_refl) as [found [Hrun [Hfound _]]].
  rewrite Hrun, Hfound. reflexivity.
Defined.

(** C3 fails as stated: a pattern whose only wildcard is [?] is taken for
    a literal key; nothing is listed and nothing is matched. *)
Lemma get_jobs_matching_key_question_mark_unmatched :
  ~ (forall (W : World) (key : PartialJobKey) (s : state)
            (listing : list AuroraJobKey) (s' : state),
       List.existsb (fun f => PyStr.contains "*" f || PyStr.contains "?" f)
                    (pk_fields key) = true ->
       get_job_list W (clusters_to_search W key) (Some (pk_role key)) s
         = (inr listing, s') ->
       fst (get_jobs_matching_key W key s) =
       inr (filter_job_list W listing (pk_role key) (pk_env key) (pk_name key))).
Proof.
  intros H.
  specialize (H Sample.world (mkPartialJobKey "clusterA" "web" "prod" "fronten?")
                initial_state
                [mkAuroraJobKey "clusterA" "web" "prod" "frontend";
                 mkAuroraJobKey "clusterA" "web" "staging" "frontend"]
                _ eq_refl eq_refl).
  vm_compute in H. discriminate H.
Qed.

Example question_mark_pattern_is_not_listed :
  get_jobs_matching_key Sample.world
    (mkPartialJobKey "clusterA" "web" "prod" "fronten?") initial_state =
  (inl InvalidJobKey, initial_state).
Proof. reflexivity. Qed.

Lemma get_job_list_valid (W : World) clusters role s ks s' :
  get_job_list W clusters (Some role) s = (inr ks, s') ->
  List.Forall (fun k => forallb valid_field (jk_fields k) = true) ks.
Proof.
  rewrite get_job_list_unfold. intros Hrun.
  apply (get_job_list_loop_Forall W _ _ _ _ _ _ _) with (3 := Hrun).
  - intros c k _ _ Hv. exact Hv.
  - constructor.
Qed.

(** C8. Every key [get_jobs_matching_key] returns, on the fully-bound path
    as on the listing path, has four fields that are non-empty and contain
    neither [*] nor [?]: each key is made by the [AuroraJobKey] constructor,
    of the pattern's fields on the one path and of a listed job on the
    other, and the constructor makes no other key. *)
Theorem get_jobs_matching_key_produced_keys (W : World) (key : PartialJobKey)
    (s : state) (found : list AuroraJobKey) (s' : state) :
  get_jobs_matching_key W key s = (inr found, s') ->
  forall k, List.In k found ->
    List.Forall (fun f => f <> "" /\ PyStr.contains "*" f = false
                          /\ PyStr.contains "?" f = false)
                (jk_fields k).
Proof.
  intros Hrun k Hk. apply forallb_valid_fields.
  destruct (is_fully_bound key) eqn:Hb.
  - rewrite (get_jobs_matching_key_bound W key s Hb) in Hrun.
    destruct (AuroraJobKey_init _ _ _ _) as [e|k0] eqn:Hk0; [discriminate|].
    inversion Hrun; subst. destruct Hk as [<-|[]].
    apply AuroraJobKey_init_inr in Hk0. destruct Hk0 as [-> Hv]. exact Hv.
  - rewrite (get_jobs_matching_key_unbound W key s Hb) in Hrun.
    destruct (get_job_list W _ _ s) as [[e|jobs] s1] eqn:Hlist; [discriminate|].
    inversion Hrun; subst. apply filter_job_list_In in Hk. destruct Hk as [Hin _].
    pose proof (get_job_list_valid W _ _ _ _ _ Hlist) as Hall.
    rewrite List.Forall_forall in Hall. apply Hall, Hin.
Qed.

Lemma get_jobs_matching_key_produced_keys_witness :
  let key := mkPartialJobKey "clusterA" "*" "prod" "*" in
  let k := mkAuroraJobKey "clusterA" "web" "prod" "frontend" in
  let a := {| client_id := 0; client_cluster := "clusterA" |} in
  let s' := {| apis := <["clusterA" := a]> ∅;
               events := [MakeClient "clusterA"; GetJobs a None] |} in
  get_jobs_matching_key Sample.world key initial_state = (inr [k], s') /\
  List.In k [k] /\
  List.Forall (fun f => f <> "" /\ PyStr.contains "*" f = false
                        /\ PyStr.contains "?" f = false)
              (jk_fields k).
Proof.
  cbv zeta. split; [reflexivity|]. split; [left; reflexivity|].
  apply (get_jobs_matching_key_produced_keys Sample.world
           (mkPartialJobKey "clusterA" "*" "prod" "*") initial_state
           [mkAuroraJobKey "clusterA" "web" "prod" "frontend"]
           {| apis := <["clusterA" :=
                          {| client_id := 0; client_cluster := "clusterA" |}]> ∅;
              events := [MakeClient "clusterA";
                         GetJobs {| client_id := 0; client_cluster := "clusterA" |}
                                 None] |}
           eq_refl
           (mkAuroraJobKey "clusterA" "web" "prod" "frontend")
           (or_introl eq_refl)).
Defined.

(** A job the scheduler lists with an empty environment does not become a
    key either: the listing fails in the constructor. *)
Example listed_job_with_empty_field_makes_no_key :
  get_jobs_matching_key Sample.broken_world (mkPartialJobKey "odd" "*" "*" "*")
    initial_state =
  (inl InvalidJobKey,
   {| apis := <["odd" := {| client_id := 0; client_cluster := "odd" |}]> ∅;
      events := [MakeClient "odd";
                 GetJobs {| client_id := 0; client_cluster := "odd" |} None] |}).
Proof. reflexivity. Qed.

(** ** Resolving, joining and parsing again *)

(** The fields of a parsed pattern are the segments, padded with [*]. *)
Lemma parse_partial_jobkey_fields (raw : string) (p : PartialJobKey) :
  parse_partial_jobkey raw = inr p ->
  pk_fields p =
  PyStr.split slash raw
    ++ List.repeat "*" (4 - List.length (PyStr.split slash raw)).
Proof.
  unfold parse_partial_jobkey.
  destruct (PyStr.split slash raw) as [|a [|b [|c [|d [|e l]]]]]; cbn;
    intros H; inversion H; subst; reflexivity.
Qed.

(** No field of a parsed pattern contains [/]. *)
Lemma parse_partial_jobkey_no_slash (raw : string) (p : PartialJobKey) :
  parse_partial_jobkey raw = inr p ->
  List.Forall (fun f => PyStr.contains slash f = false) (pk_fields p).
Proof.
  intros Hp. rewrite (parse_partial_jobkey_fields raw p Hp).
  apply List.Forall_app. split.
  - apply PyStrFacts.split_segments_no_sep.
  - apply List.Forall_forall. intros f Hf.
    apply List.repeat_spec in Hf. subst f. reflexivity.
Qed.

(** Four segments free of [/], joined and parsed, give those segments. *)
Lemma parse_join_four (c r e n : string) :
  List.Forall (fun f => PyStr.contains slash f = false) [c; r; e; n] ->
  parse_partial_jobkey (PyStr.join slash [c; r; e; n]) = inr (mkPartialJobKey c r e n).
Proof.
  intros Hs. unfold parse_partial_jobkey.
  rewrite (PyStrFacts.split_join slash [c; r; e; n]) by (discriminate || assumption).
  reflexivity.
Qed.



Example parse_then_resolve_then_parse :
  parse_partial_jobkey "clusterA/web/prod/frontend" =
    inr (mkPartialJobKey "clusterA" "web" "prod" "frontend") /\
  PyStr.join slash (jk_fields (mkAuroraJobKey "clusterA" "web" "prod" "frontend")) =
    "clusterA/web/prod/frontend".
Proof. split; reflexivity. Qed.

(** * Further properties *)

(** ** parse_partial_jobkey on the raw string *)

(** There is one more segment than there are separators. *)
Lemma split_length_count (sep : ascii) (s : string) :
  List.length (PyStr.split sep s) = S (count_char sep s).
Proof.
  induction s as [|a rest IH]; simpl; [reflexivity|].
  destruct (Ascii.eqb a sep).
  - simpl. rewrite IH. reflexivity.
  - destruct (PyStr.split sep rest) as [|seg segs]; simpl in *; [discriminate | exact IH].
Qed.

(** A character other than the separator occurs in the string iff it occurs
    in one of the segments. *)
Lemma contains_split (c sep : ascii) (s : string) :
  c <> sep ->
  PyStr.contains c s = List.existsb (PyStr.contains c) (PyStr.split sep s).
Proof.
  intros Hne. induction s as [|a rest IH]; simpl; [reflexivity|].
  destruct (Ascii.eqb a sep) eqn:Hsep.
  - apply Ascii.eqb_eq in Hsep. subst a.
    assert (Hc : Ascii.eqb sep c = false) by (apply Ascii.eqb_neq; congruence).
    rewrite Hc. simpl. exact IH.
  - destruct (PyStr.split sep rest) as [|seg segs] eqn:Hsplit.
    + exfalso. apply (PyStrFacts.split_nonempty sep rest). exact Hsplit.
    + simpl in *. rewrite IH. destruct (Ascii.eqb a c); reflexivity.
Qed.

(** X1. [parse_partial_jobkey] accepts exactly the strings with at most
    three [/] characters; any string with four or more raises
    [CommandError(EXIT_INVALID_PARAMETER, ...)], whatever is between the
    slashes. *)
Theorem parse_partial_jobkey_slash_count (raw : string) :
  ((exists p, parse_partial_jobkey raw = inr p) <-> (count_char slash raw <= 3)%nat)
  /\ (parse_partial_jobkey raw =
        inl (CommandError EXIT_INVALID_PARAMETER too_many_segments)
      <-> (3 < count_char slash raw)%nat).
Proof.
  pose proof (split_length_count slash raw) as Hlen.
  unfold parse_partial_jobkey.
  destruct (PyStr.split slash raw) as [|a [|b [|c [|d [|e l]]]]];
    simpl in Hlen; cbn; (split; split);
    try (intros _; lia);
    try (intros _; eexists; reflexivity);
    try (intros _; reflexivity);
    try (intros H; discriminate H);
    try (intros [p Hp]; discriminate Hp);
    try (intros H; exfalso; lia).
Qed.

(** X2. The fields of a parsed pattern, joined with [/] and parsed again,
    give the same pattern: a parsed field never contains [/], and the
    padding is already in place. *)
Theorem parse_join_parse (raw : string) (p : PartialJobKey) :
  parse_partial_jobkey raw = inr p ->
  List.Forall (fun f => PyStr.contains slash f = false) (pk_fields p) /\
  parse_partial_jobkey (PyStr.join slash (pk_fields p)) = inr p.
Proof.
  intros Hp. pose proof (parse_partial_jobkey_no_slash raw p Hp) as Hs.
  split; [exact Hs|]. destruct p as [c r e n]. unfold pk_fields in *. simpl in *.
  apply parse_join_four. exact Hs.
Qed.

Lemma parse_join_parse_witness :
  parse_partial_jobkey "clusterA/web" = inr (mkPartialJobKey "clusterA" "web" "*" "*") /\
  PyStr.join slash (pk_fields (mkPartialJobKey "clusterA" "web" "*" "*")) =
    "clusterA/web/*/*" /\
  parse_partial_jobkey "clusterA/web/*/*" = inr (mkPartialJobKey "clusterA" "web" "*" "*").
Proof.
  split; [reflexivity|]. split; [reflexivity|].
  apply (parse_join_parse "clusterA/web" (mkPartialJobKey "clusterA" "web" "*" "*")
           eq_refl).
Defined.

(** X3. A parsed pattern is fully bound exactly when the raw string has
    three [/] (four segments) and no [*] anywhere: every shorter key is
    padded with [*] and therefore goes to the listing path. *)
Theorem parsed_fully_bound_iff (raw : string) (p : PartialJobKey) :
  parse_partial_jobkey raw = inr p ->
  (is_fully_bound p = true <->
   count_char slash raw = 3%nat /\ PyStr.contains star raw = false).
Proof.
  intros Hp.
  pose proof (parse_partial_jobkey_fields raw p Hp) as Hf.
  pose proof (split_length_count slash raw) as Hlen.
  assert (Hne : star <> slash) by discriminate.
  pose proof (contains_split star slash raw Hne) as Hc.
  unfold is_fully_bound. fold (pk_fields p). rewrite Hf, Bool.negb_true_iff.
  unfold parse_partial_jobkey in Hp.
  destruct (PyStr.split slash raw) as [|a [|b [|c [|d [|e l]]]]];
    simpl in Hlen; try discriminate Hp; try discriminate Hlen.
  - rewrite List.existsb_app. cbn. rewrite Bool.orb_true_r.
    split; [discriminate | intros [H _]; lia].
  - rewrite List.existsb_app. cbn. rewrite Bool.orb_true_r.
    split; [discriminate | intros [H _]; lia].
  - rewrite List.existsb_app. cbn. rewrite Bool.orb_true_r.
    split; [discriminate | intros [H _]; lia].
  - cbn [Nat.sub List.length List.repeat]. rewrite List.app_nil_r, <- Hc.
    split; [intros H; split; [lia | exact H] | intros [_ H]; exact H].
Qed.

Lemma parsed_fully_bound_iff_witness :
  parse_partial_jobkey "clusterA/web/prod/frontend" =
    inr (mkPartialJobKey "clusterA" "web" "prod" "frontend") /\
  (is_fully_bound (mkPartialJobKey "clusterA" "web" "prod" "frontend") = true <->
   count_char slash "clusterA/web/prod/frontend" = 3%nat /\
   PyStr.contains star "clusterA/web/prod/frontend" = false).
Proof.
  split; [reflexivity|].
  apply (parsed_fully_bound_iff "clusterA/web/prod/frontend"
           (mkPartialJobKey "clusterA" "web" "prod" "frontend") eq_refl).
Defined.

(** ** The cache stays well formed *)

Lemma cache_ok_initial : cache_ok initial_state.
Proof. intros c h Hc. simpl in Hc. rewrite lookup_empty in Hc. discriminate Hc. Qed.

Lemma nth_error_app_keep {A} (l l' : list A) (i : nat) (x : A) :
  List.nth_error l i = Some x -> List.nth_error (l ++ l') i = Some x.
Proof.
  intros H. rewrite List.nth_error_app1; [exact H|].
  apply List.nth_error_Some. congruence.
Qed.

Lemma cache_ok_emit (s : state) (e : event) :
  cache_ok s -> cache_ok {| apis := apis s; events := events s ++ [e] |}.
Proof.
  intros Hok c h Hc. simpl in *. destruct (Hok c h Hc) as [Hcl Hev].
  split; [exact Hcl | apply nth_error_app_keep, Hev].
Qed.

Lemma cache_ok_get_api (W : World) (c : string) (s : state) :
  cache_ok s -> cache_ok (snd (get_api W c s)).
Proof.
  intros Hok. destruct (apis s !! c) as [h|] eqn:Hc.
  - rewrite (get_api_cached W _ _ _ Hc). exact Hok.
  - destruct (make_client_raises W (events s) c) as [e|] eqn:Hm.
    + rewrite (get_api_failed W _ _ _ Hc Hm). apply cache_ok_emit, Hok.
    + rewrite (get_api_built W _ _ Hc Hm). intros c' h' Hc'. simpl in *.
      destruct (decide (c = c')) as [<-|Hne].
      * rewrite lookup_insert_eq in Hc'. inversion Hc'; subst h'. simpl.
        split; [reflexivity|].
        rewrite List.nth_error_app2 by lia. rewrite Nat.sub_diag. reflexivity.
      * rewrite lookup_insert_ne in Hc' by assumption.
        destruct (Hok c' h' Hc') as [Hcl Hev].
        split; [exact Hcl | apply nth_error_app_keep, Hev].
Qed.

Lemma cache_ok_session (W : World) (cs : list string) (s : state) :
  cache_ok s -> cache_ok (session W cs s).
Proof.
  revert s. induction cs as [|c cs IH]; intros s Hok; simpl; [exact Hok|].
  apply IH, cache_ok_get_api, Hok.
Qed.

(** In a well-formed cache the client handed out for a cluster was built
    for that cluster. *)
Lemma get_api_client_cluster (W : World) c s api s1 :
  cache_ok s -> get_api W c s = (inr api, s1) -> client_cluster api = c.
Proof.
  intros Hok Hrun. destruct (apis s !! c) as [h|] eqn:Hc.
  - rewrite (get_api_cached W _ _ _ Hc) in Hrun. inversion Hrun; subst.
    apply (Hok c api Hc).
  - destruct (make_client_raises W (events s) c) as [e|] eqn:Hm.
    + rewrite (get_api_failed W _ _ _ Hc Hm) in Hrun. discriminate Hrun.
    + rewrite (get_api_built W _ _ Hc Hm) in Hrun. inversion Hrun; subst.
      reflexivity.
Qed.

(** X4. Whatever clusters a fresh context is asked for, and whatever
    constructions fail on the way, every cache entry holds a client that a
    recorded [make_client] call built for that very cluster, and no two
    clusters share a client instance. *)
Theorem session_cache_well_formed (W : World) (cs : list string) :
  let s := session W cs initial_state in
  forall c1 h1, apis s !! c1 = Some h1 ->
    client_cluster h1 = c1 /\
    List.nth_error (events s) (client_id h1) = Some (MakeClient c1) /\
    forall c2 h2, apis s !! c2 = Some h2 ->
      client_id h1 = client_id h2 -> c1 = c2.
Proof.
  cbv zeta. pose proof (cache_ok_session W cs _ cache_ok_initial) as Hok.
  intros c1 h1 H1. destruct (Hok c1 h1 H1) as [Hcl1 Hev1].
  split; [exact Hcl1|]. split; [exact Hev1|].
  intros c2 h2 H2 Hid. destruct (Hok c2 h2 H2) as [_ Hev2].
  rewrite Hid in Hev1. congruence.
Qed.

Lemma session_cache_well_formed_witness :
  let s := session Sample.world ["clusterA"; "clusterB"] initial_state in
  let h1 := {| client_id := 0; client_cluster := "clusterA" |} in
  apis s !! "clusterA" = Some h1 /\
  client_cluster h1 = "clusterA" /\
  List.nth_error (events s) (client_id h1) = Some (MakeClient "clusterA").
Proof.
  cbv zeta.
  assert (H1 : apis (session Sample.world ["clusterA"; "clusterB"] initial_state)
                 !! "clusterA"
               = Some {| client_id := 0; client_cluster := "clusterA" |})
    by (vm_compute; reflexivity).
  split; [exact H1|].
  destruct (session_cache_well_formed Sample.world ["clusterA"; "clusterB"]
              "clusterA" {| client_id := 0; client_cluster := "clusterA" |} H1)
    as (Hcl & Hev & _).
  split; [exact Hcl | exact Hev].
Defined.

Example session_two_clusters_two_clients :
  let s := session Sample.world ["clusterA"; "clusterB"; "clusterA"] initial_state in
  apis s !! "clusterA" = Some {| client_id := 0; client_cluster := "clusterA" |} /\
  apis s !! "clusterB" = Some {| client_id := 1; client_cluster := "clusterB" |} /\
  events s = [MakeClient "clusterA"; MakeClient "clusterB"].
Proof. vm_compute. auto. Qed.

(** ** get_job_list: composition, errors, effects *)

Section ListerMore.

Context (W : World).

(** The jobs gathered before the loop starts stay in front. *)
Lemma get_job_list_loop_acc clusters role acc s :
  get_job_list_loop W clusters role acc s =
  match get_job_list_loop W clusters role [] s with
  | (inl e, s') => (inl e, s')
  | (inr ks, s') => (inr (acc ++ ks), s')
  end.
Proof.
  revert acc s. induction clusters as [|c rest IH]; intros acc s.
  - simpl. unfold ret. rewrite List.app_nil_r. reflexivity.
  - rewrite !get_job_list_loop_step.
    destruct (get_api W c s) as [[e|api] s1]; [reflexivity|]. cbv zeta.
    destruct (cluster_listing W c api role (events s1)) as [e|keys]; [reflexivity|].
    rewrite (IH (acc ++ keys)), (IH ([] ++ keys)).
    destruct (get_job_list_loop W rest role [] _) as [[e|ks] s']; [reflexivity|].
    simpl. rewrite List.app_assoc. reflexivity.
Qed.

Lemma get_job_list_loop_app cs1 cs2 role acc s :
  get_job_list_loop W (cs1 ++ cs2) role acc s =
  match get_job_list_loop W cs1 role acc s with
  | (inl e, s1) => (inl e, s1)
  | (inr ks, s1) => get_job_list_loop W cs2 role ks s1
  end.
Proof.
  revert acc s. induction cs1 as [|c rest IH]; intros acc s; [reflexivity|].
  rewrite <- List.app_comm_cons, !get_job_list_loop_step.
  destruct (get_api W c s) as [[e|api] s1]; [reflexivity|]. cbv zeta.
  destruct (cluster_listing W c api role (events s1)) as [e|keys]; [reflexivity|].
  apply IH.
Qed.

(** X5. Listing [cs1 ++ cs2] is listing [cs1] and then, from the session
    this leaves, listing [cs2]: the jobs come in that order, and the first
    failure on either side is the failure of the whole, with nothing
    returned. *)
Theorem get_job_list_app (cs1 cs2 : list string) (role : string) (s : state) :
  get_job_list W (cs1 ++ cs2) (Some role) s =
  match get_job_list W cs1 (Some role) s with
  | (inl e, s1) => (inl e, s1)
  | (inr ks1, s1) =>
      match get_job_list W cs2 (Some role) s1 with
      | (inl e, s2) => (inl e, s2)
      | (inr ks2, s2) => (inr (ks1 ++ ks2), s2)
      end
  end.
Proof.
  rewrite !get_job_list_unfold, get_job_list_loop_app.
  destruct (get_job_list_loop W cs1 _ [] s) as [[e|ks1] s1]; [reflexivity|].
  rewrite get_job_list_unfold. apply get_job_list_loop_acc.
Qed.

(** [get_api] raises only what [make_client] raised, called because the
    cluster had no entry, and the failed call is the last thing recorded. *)
Lemma get_api_error c s e s1 :
  get_api W c s = (inl e, s1) ->
  apis s !! c = None /\
  make_client_raises W (events s) c = Some e /\
  s1 = {| apis := apis s; events := events s ++ [MakeClient c] |}.
Proof.
  intros Hrun. destruct (apis s !! c) as [h|] eqn:Hc.
  - rewrite (get_api_cached W _ _ _ Hc) in Hrun. discriminate Hrun.
  - destruct (make_client_raises W (events s) c) as [e'|] eqn:Hm.
    + rewrite (get_api_failed W _ _ _ Hc Hm) in Hrun. inversion Hrun. auto.
    + rewrite (get_api_built W _ _ Hc Hm) in Hrun. discriminate Hrun.
Qed.

(** Where an exception of the loop comes from, with the trace at which the
    failing call was made. *)
Lemma get_job_list_loop_errors clusters role acc s e :
  fst (get_job_list_loop W clusters role acc s) = inl e ->
  exists pre c,
    List.In c clusters /\
    ((events (snd (get_job_list_loop W clusters role acc s))
        = (events s ++ pre) ++ [MakeClient c] /\
      make_client_raises W (events s ++ pre) c = Some e)
     \/
     exists api,
       events (snd (get_job_list_loop W clusters role acc s))
         = (events s ++ pre) ++ [GetJobs api role] /\
       (get_jobs_response W (events s ++ pre) api role = inl e
        \/
        exists resp,
          get_jobs_response W (events s ++ pre) api role = inr resp /\
          ((responseCode resp <> OK /\ e = NameError "EXIT_COMMAND_FAILURE")
           \/
           (responseCode resp = OK /\ tagged c resp = inl e /\
            ((exists msg, e = AttributeError msg)
             \/ e = TypeError "'NoneType' object is not iterable"
             \/ e = InvalidJobKey))))).
Proof.
  revert acc s. induction clusters as [|c rest IH]; intros acc s Hrun.
  - discriminate Hrun.
  - rewrite get_job_list_loop_step in Hrun |- *.
    pose proof (get_api_events W c s) as Hev.
    destruct (get_api W c s) as [[e'|api] s1] eqn:Hapi; simpl in Hev.
    + simpl in Hrun. inversion Hrun; subst e'.
      destruct (get_api_error _ _ _ _ Hapi) as (_ & Hm & ->).
      exists [], c. rewrite List.app_nil_r. split; [left; reflexivity|].
      left. split; [reflexivity | exact Hm].
    + cbv zeta in Hrun |- *.
      set (made := match apis s !! c with Some _ => [] | None => [MakeClient c] end)
        in Hev.
      destruct (cluster_listing W c api role (events s1)) as [e'|keys] eqn:Hl.
      * simpl in Hrun. inversion Hrun; subst e'. simpl.
        exists made, c. rewrite <- Hev. split; [left; reflexivity|].
        right. exists api. split; [reflexivity|].
        unfold cluster_listing in Hl.
        destruct (get_jobs_response W (events s1) api role) as [e'|resp];
          [left; congruence|].
        right. exists resp. split; [reflexivity|].
        destruct (decide (responseCode resp = OK)) as [Hok|Hko].
        -- rewrite (bool_decide_eq_false_2 (responseCode resp <> OK)) in Hl by tauto.
           right. split; [exact Hok|]. split; [exact Hl|].
           apply (tagged_errors _ _ _ Hl).
        -- rewrite (bool_decide_eq_true_2 _ Hko) in Hl. left.
           split; [exact Hko | congruence].
      * set (s2 := {| apis := apis s1; events := events s1 ++ [GetJobs api role] |})
          in *.
        assert (Hs2 : events s2 = (events s ++ made) ++ [GetJobs api role])
          by (unfold s2; simpl; rewrite Hev; reflexivity).
        destruct (IH _ _ Hrun) as (pre & c' & Hin & Hcase).
        rewrite Hs2 in Hcase.
        exists (made ++ [GetJobs api role] ++ pre), c'.
        split; [right; exact Hin|].
        replace (events s ++ made ++ [GetJobs api role] ++ pre)
          with (((events s ++ made) ++ [GetJobs api role]) ++ pre)
          by (rewrite <- !List.app_assoc; reflexivity).
        exact Hcase.
Qed.

(** X6. Whatever [get_job_list] raises is one of these: the [TypeError]
    of a missing role; what [make_client] raised when it was called for one
    of the given clusters; what the listing call [api.get_jobs] raised; the
    [NameError] for [EXIT_COMMAND_FAILURE] after a response whose code is
    not [OK]; or, after an [OK] response, the failure to make the job keys
    of its payload (an [AttributeError] or [TypeError] for a missing part,
    or the refusal of the [AuroraJobKey] constructor).  In each case but
    the first the failing call is the last thing the session records, and
    the exception is the one of that very call.  The listing builds no
    [CommandError] of its own. *)
Theorem get_job_list_errors (clusters : list string) (role : option string)
    (s : state) (e : exn) :
  fst (get_job_list W clusters role s) = inl e ->
  (role = None /\ e = TypeError "argument of type 'NoneType' is not iterable")
  \/
  exists r pre c,
    role = Some r /\ List.In c clusters /\
    ((events (snd (get_job_list W clusters role s))
        = (events s ++ pre) ++ [MakeClient c] /\
      make_client_raises W (events s ++ pre) c = Some e)
     \/
     exists api,
       events (snd (get_job_list W clusters role s))
         = (events s ++ pre)
           ++ [GetJobs api (if PyStr.contains star r then None else Some r)] /\
       (get_jobs_response W (events s ++ pre) api
          (if PyStr.contains star r then None else Some r) = inl e
        \/
        exists resp,
          get_jobs_response W (events s ++ pre) api
            (if PyStr.contains star r then None else Some r) = inr resp /\
          ((responseCode resp <> OK /\ e = NameError "EXIT_COMMAND_FAILURE")
           \/
           (responseCode resp = OK /\ tagged c resp = inl e /\
            ((exists msg, e = AttributeError msg)
             \/ e = TypeError "'NoneType' object is not iterable"
             \/ e = InvalidJobKey))))).
Proof.
  destruct role as [r|].
  - rewrite get_job_list_unfold. intros Hrun. right.
    destruct (get_job_list_loop_errors _ _ _ _ _ Hrun) as (pre & c & Hin & Hcase).
    exists r, pre, c. split; [reflexivity|]. split; [exact Hin | exact Hcase].
  - simpl. intros Hrun. left. split; [reflexivity | congruence].
Qed.

End ListerMore.

Lemma get_job_list_errors_witness :
  let out := get_job_list Sample.broken_world ["odd"] (Some "web") initial_state in
  let e := InvalidJobKey in
  fst out = inl e /\
  ((Some "web" = None /\ e = TypeError "argument of type 'NoneType' is not iterable")
   \/
   exists r pre c,
     Some "web" = Some r /\ List.In c ["odd"] /\
     ((events (snd out) = (events initial_state ++ pre) ++ [MakeClient c] /\
       make_client_raises Sample.broken_world (events initial_state ++ pre) c = Some e)
      \/
      exists api,
        events (snd out)
          = (events initial_state ++ pre)
            ++ [GetJobs api (if PyStr.contains star r then None else Some r)] /\
        (get_jobs_response Sample.broken_world (events initial_state ++ pre) api
           (if PyStr.contains star r then None else Some r) = inl e
         \/
         exists resp,
           get_jobs_response Sample.broken_world (events initial_state ++ pre) api
             (if PyStr.contains star r then None else Some r) = inr resp /\
           ((responseCode resp <> OK /\ e = NameError "EXIT_COMMAND_FAILURE")
            \/
            (responseCode resp = OK /\ tagged c resp = inl e /\
             ((exists msg, e = AttributeError msg)
              \/ e = TypeError "'NoneType' object is not iterable"
              \/ e = InvalidJobKey)))))).
Proof.
  cbv zeta. split; [reflexivity|].
  apply (get_job_list_errors Sample.broken_world ["odd"] (Some "web") initial_state
           InvalidJobKey eq_refl).
Defined.

Example get_job_list_failures :
  fst (get_job_list Sample.flaky_world ["clusterA"] (Some "web") initial_state) =
    inl (ClientError "connection refused") /\
  fst (get_job_list Sample.broken_world ["down"] (Some "web") initial_state) =
    inl (ClientError "timed out") /\
  fst (get_job_list Sample.broken_world ["bare"] (Some "web") initial_state) =
    inl (AttributeError "'NoneType' object has no attribute 'getJobsResult'") /\
  fst (get_job_list Sample.world ["clusterB"] (Some "web") initial_state) =
    inl (NameError "EXIT_COMMAND_FAILURE").
Proof. repeat split. Qed.

Section ListerEffects.

Context (W : World).

Lemma constructions_listing c a a' evs api r :
  constructions c {| apis := a; events := evs ++ [GetJobs api r] |} =
  constructions c {| apis := a'; events := evs |}.
Proof.
  unfold constructions. simpl. rewrite List.filter_app, List.length_app. simpl. lia.
Qed.

Lemma get_api_constructions_le c c' s :
  (constructions c (snd (get_api W c' s)) <= constructions c s + 1)%nat.
Proof.
  destruct (apis s !! c') as [h|] eqn:Hc.
  - rewrite (get_api_cached W _ _ _ Hc). simpl. lia.
  - destruct (make_client_raises W (events s) c') as [e|] eqn:Hm.
    + rewrite (get_api_failed W _ _ _ Hc Hm). simpl. rewrite constructions_emit.
      unfold constructions. destruct (String.eqb c' c); lia.
    + rewrite (get_api_built W _ _ Hc Hm). simpl. rewrite constructions_emit.
      unfold constructions. destruct (String.eqb c' c); lia.
Qed.

Lemma get_api_constructions_other c c' s :
  c' <> c -> constructions c (snd (get_api W c' s)) = constructions c s.
Proof.
  intros Hne. assert (Heqb : String.eqb c' c = false) by (apply String.eqb_neq, Hne).
  destruct (apis s !! c') as [h|] eqn:Hc.
  - rewrite (get_api_cached W _ _ _ Hc). reflexivity.
  - destruct (make_client_raises W (events s) c') as [e|] eqn:Hm.
    + rewrite (get_api_failed W _ _ _ Hc Hm). simpl.
      rewrite constructions_emit, Heqb. unfold constructions. lia.
    + rewrite (get_api_built W _ _ Hc Hm). simpl.
      rewrite constructions_emit, Heqb. unfold constructions. lia.
Qed.

Lemma get_api_result_cached c s api s1 :
  get_api W c s = (inr api, s1) -> apis s1 !! c = Some api.
Proof.
  intros Hrun. destruct (apis s !! c) as [h|] eqn:Hc.
  - rewrite (get_api_cached W _ _ _ Hc) in Hrun. inversion Hrun; subst. exact Hc.
  - destruct (make_client_raises W (events s) c) as [e|] eqn:Hm.
    + rewrite (get_api_failed W _ _ _ Hc Hm) in Hrun. discriminate Hrun.
    + rewrite (get_api_built W _ _ Hc Hm) in Hrun. inversion Hrun; subst.
      simpl. apply lookup_insert_eq.
Qed.

(** The loop leaves an existing entry alone and builds nothing for it. *)
Lemma get_job_list_loop_keeps clusters role acc s c h :
  apis s !! c = Some h ->
  apis (snd (get_job_list_loop W clusters role acc s)) !! c = Some h /\
  constructions c (snd (get_job_list_loop W clusters role acc s)) = constructions c s.
Proof.
  revert acc s. induction clusters as [|c0 rest IH]; intros acc s Hc; [simpl; auto|].
  rewrite get_job_list_loop_step.
  destruct (get_api_keeps W c h c0 s Hc) as [Hk Hn].
  destruct (get_api W c0 s) as [[e|api] s1]; simpl in Hk, Hn; [simpl; auto|].
  cbv zeta.
  set (s2 := {| apis := apis s1; events := events s1 ++ [GetJobs api role] |}).
  assert (Hk2 : apis s2 !! c = Some h) by exact Hk.
  assert (Hn2 : constructions c s2 = constructions c s).
  { rewrite <- Hn. unfold s2. rewrite (constructions_listing c _ (apis s1)).
    reflexivity. }
  destruct (cluster_listing W c0 api role (events s1)) as [e|keys]; [simpl; auto|].
  destruct (IH (acc ++ keys) s2 Hk2)
    as [Hk' Hn'].
  split; [exact Hk' | congruence].
Qed.

Lemma get_job_list_loop_constructions_le clusters role acc s c :
  (constructions c (snd (get_job_list_loop W clusters role acc s))
   <= constructions c s + 1)%nat.
Proof.
  revert acc s. induction clusters as [|c0 rest IH]; intros acc s; [simpl; lia|].
  rewrite get_job_list_loop_step.
  pose proof (get_api_constructions_le c c0 s) as Hle.
  pose proof (get_api_constructions_other c c0 s) as Hother.
  destruct (get_api W c0 s) as [[e|api] s1] eqn:Hapi; simpl in Hle, Hother;
    [simpl; exact Hle|].
  cbv zeta.
  set (s2 := {| apis := apis s1; events := events s1 ++ [GetJobs api role] |}).
  assert (Hn2 : constructions c s2 = constructions c s1).
  { unfold s2. rewrite (constructions_listing c _ (apis s1)). reflexivity. }
  destruct (cluster_listing W c0 api role (events s1)) as [e|keys];
    [simpl; fold s2; lia|].
  destruct (decide (c0 = c)) as [->|Hne].
  - assert (Hc2 : apis s2 !! c = Some api)
      by exact (get_api_result_cached _ _ _ _ Hapi).
    destruct (get_job_list_loop_keeps rest role
                (acc ++ keys)
                s2 c api Hc2) as [_ Hsame].
    rewrite Hsame. lia.
  - specialize (IH (acc ++ keys) s2).
    rewrite (Hother Hne) in *. lia.
Qed.

(** X7. One call of [get_job_list] invokes [make_client] at most once for
    any cluster, however often the cluster is named in [clusters], and not
    at all for a cluster that is already in the cache, whose entry it
    leaves as it is. *)
Theorem get_job_list_constructions (clusters : list string) (role : option string)
    (s : state) (c : string) :
  let s' := snd (get_job_list W clusters role s) in
  (constructions c s' <= constructions c s + 1)%nat /\
  forall h, apis s !! c = Some h ->
    apis s' !! c = Some h /\ constructions c s' = constructions c s.
Proof.
  cbv zeta. destruct role as [r|].
  - rewrite get_job_list_unfold. split.
    + apply get_job_list_loop_constructions_le.
    + intros h Hc. apply get_job_list_loop_keeps, Hc.
  - simpl. split; [lia | auto].
Qed.

Lemma cache_ok_listing (s : state) api role :
  cache_ok s ->
  cache_ok {| apis := apis s; events := events s ++ [GetJobs api role] |}.
Proof. apply cache_ok_emit. Qed.

Lemma asked_app evs1 evs2 : asked (evs1 ++ evs2) = asked evs1 ++ asked evs2.
Proof. unfold asked. apply List.flat_map_app. Qed.

Lemma asked_construction c s :
  asked (match apis s !! c with Some _ => [] | None => [MakeClient c] end) = [].
Proof. destruct (apis s !! c); reflexivity. Qed.

Lemma get_job_list_loop_asked clusters role acc s :
  cache_ok s ->
  exists new rest,
    events (snd (get_job_list_loop W clusters role acc s)) = events s ++ new /\
    clusters = asked new ++ rest /\
    (forall ks, fst (get_job_list_loop W clusters role acc s) = inr ks -> rest = []).
Proof.
  revert acc s. induction clusters as [|c rest0 IH]; intros acc s Hok.
  - exists [], []. simpl. rewrite List.app_nil_r. auto.
  - rewrite get_job_list_loop_step.
    pose proof (get_api_events W c s) as Hev.
    pose proof (cache_ok_get_api W c s Hok) as Hok1.
    destruct (get_api W c s) as [[e|api] s1] eqn:Hapi; simpl in Hev, Hok1.
    + exists (match apis s !! c with Some _ => [] | None => [MakeClient c] end),
             (c :: rest0).
      simpl. rewrite asked_construction. split; [exact Hev|].
      split; [reflexivity | intros ks H; discriminate H].
    + pose proof (get_api_client_cluster W c s api s1 Hok Hapi) as Hcl.
      cbv zeta.
      set (s2 := {| apis := apis s1; events := events s1 ++ [GetJobs api role] |}).
      set (pre := match apis s !! c with Some _ => [] | None => [MakeClient c] end
                  ++ [GetJobs api role]).
      assert (Hs2 : events s2 = events s ++ pre).
      { unfold s2, pre. simpl. rewrite Hev, <- List.app_assoc. reflexivity. }
      assert (Hpre : asked pre = [c]).
      { unfold pre. rewrite asked_app, asked_construction. simpl. rewrite Hcl.
        reflexivity. }
      destruct (cluster_listing W c api role (events s1)) as [e|keys].
      * exists pre, rest0. simpl. rewrite Hpre. split; [exact Hs2|].
        split; [reflexivity | intros ks H; discriminate H].
      * destruct (IH (acc ++ keys) s2
                     (cache_ok_listing s1 api role Hok1))
          as (new & rest & Hnew & Hrest & Hdone).
        exists (pre ++ new), rest. split; [|split].
        -- rewrite Hnew, Hs2, <- List.app_assoc. reflexivity.
        -- rewrite asked_app, Hpre, Hrest. reflexivity.
        -- exact Hdone.
Qed.

(** X8. From a well-formed cache, [get_job_list] asks the given clusters
    for one listing each, in the order given, and stops at the first
    failure; when it returns, every element of [clusters], repeated ones
    included, has been asked exactly once per occurrence. *)
Theorem get_job_list_asked (clusters : list string) (role : string) (s : state) :
  cache_ok s ->
  exists new rest,
    events (snd (get_job_list W clusters (Some role) s)) = events s ++ new /\
    clusters = asked new ++ rest /\
    (forall ks, fst (get_job_list W clusters (Some role) s) = inr ks ->
       asked new = clusters).
Proof.
  intros Hok. rewrite get_job_list_unfold.
  destruct (get_job_list_loop_asked clusters
              (if PyStr.contains star role then None else Some role) [] s Hok)
    as (new & rest & Hnew & Hrest & Hdone).
  exists new, rest. split; [exact Hnew|]. split; [exact Hrest|].
  intros ks Hks. rewrite (Hdone ks Hks), List.app_nil_r in Hrest. congruence.
Qed.

End ListerEffects.

Lemma get_job_list_asked_witness :
  cache_ok initial_state /\
  exists new rest,
    events (snd (get_job_list Sample.world ["clusterA"; "clusterA"] (Some "web")
                   initial_state)) = events initial_state ++ new /\
    ["clusterA"; "clusterA"] = asked new ++ rest /\
    (forall ks,
       fst (get_job_list Sample.world ["clusterA"; "clusterA"] (Some "web")
              initial_state) = inr ks ->
       asked new = ["clusterA"; "clusterA"]).
Proof.
  split; [exact cache_ok_initial|].
  apply (get_job_list_asked Sample.world ["clusterA"; "clusterA"] "web" initial_state
           cache_ok_initial).
Defined.

Example get_job_list_same_cluster_twice :
  let out := get_job_list Sample.world ["clusterA"; "clusterA"] (Some "web")
               initial_state in
  constructions "clusterA" (snd out) = 1%nat /\
  asked (events (snd out)) = ["clusterA"; "clusterA"] /\
  exists ks, fst out = inr ks /\ List.length ks = 4%nat.
Proof. vm_compute. repeat split. eexists. split; reflexivity. Qed.

(** ** get_jobs_matching_key: what it touches *)

Section ResolverEffects.

Context (W : World).

Lemma get_job_list_loop_event_shapes clusters role acc s :
  exists new,
    events (snd (get_job_list_loop W clusters role acc s)) = events s ++ new /\
    forall e, List.In e new ->
      (exists c, e = MakeClient c /\ List.In c clusters)
      \/ (exists api, e = GetJobs api role).
Proof.
  revert acc s. induction clusters as [|c rest IH]; intros acc s.
  - exists []. simpl. rewrite List.app_nil_r. split; [reflexivity | intros ? []].
  - rewrite get_job_list_loop_step.
    pose proof (get_api_events W c s) as Hev.
    assert (Hmk : forall e,
               List.In e (match apis s !! c with Some _ => [] | None => [MakeClient c] end) ->
               exists c', e = MakeClient c' /\ List.In c' (c :: rest)).
    { intros e Hin. destruct (apis s !! c); [destruct Hin|].
      destruct Hin as [<-|[]]. exists c. split; [reflexivity | left; reflexivity]. }
    destruct (get_api W c s) as [[e|api] s1]; simpl in Hev.
    + eexists. split; [exact Hev|]. intros e' Hin. left. apply Hmk, Hin.
    + cbv zeta.
      set (s2 := {| apis := apis s1; events := events s1 ++ [GetJobs api role] |}).
      set (pre := match apis s !! c with Some _ => [] | None => [MakeClient c] end
                  ++ [GetJobs api role]).
      assert (Hs2 : events s2 = events s ++ pre).
      { unfold s2, pre. simpl. rewrite Hev, <- List.app_assoc. reflexivity. }
      assert (Hpre : forall e, List.In e pre ->
                (exists c', e = MakeClient c' /\ List.In c' (c :: rest))
                \/ (exists a, e = GetJobs a role)).
      { intros e Hin. apply List.in_app_or in Hin. destruct Hin as [Hin|[<-|[]]].
        - left. apply Hmk, Hin.
        - right. exists api. reflexivity. }
      destruct (cluster_listing W c api role (events s1)) as [e|keys].
      * exists pre. split; [exact Hs2 | exact Hpre].
      * destruct (IH (acc ++ keys) s2)
          as [new [Hnew Hall]].
        exists (pre ++ new). split.
        -- rewrite Hnew, Hs2, <- List.app_assoc. reflexivity.
        -- intros e Hin. apply List.in_app_or in Hin. destruct Hin as [Hin|Hin];
             [apply Hpre, Hin|].
           destruct (Hall e Hin) as [(c' & -> & Hc')|Hg]; [left | right; exact Hg].
           exists c'. split; [reflexivity | right; exact Hc'].
Qed.

(** X9. All that [get_jobs_matching_key] does to the outside is build
    clients for clusters it searches and ask for listings, with the role
    passed on when it has no [*] and withheld otherwise; it writes no log
    record and builds no client for any other cluster. *)
Theorem get_jobs_matching_key_effects (key : PartialJobKey) (s : state) :
  exists new,
    events (snd (get_jobs_matching_key W key s)) = events s ++ new /\
    forall e, List.In e new ->
      (forall msg, e <> LogInfo msg) /\
      ((exists c, e = MakeClient c /\
                  List.In c (if String.eqb (pk_cluster key) "*" then CLUSTERS W
                             else [pk_cluster key]))
       \/ (exists api, e = GetJobs api (if PyStr.contains star (pk_role key)
                                        then None else Some (pk_role key)))).
Proof.
  destruct (is_fully_bound key) eqn:Hb.
  - exists []. rewrite (get_jobs_matching_key_bound W key s Hb). simpl.
    rewrite List.app_nil_r. split; [reflexivity | intros ? []].
  - rewrite (get_jobs_matching_key_unbound W key s Hb), get_job_list_unfold.
    destruct (get_job_list_loop_event_shapes (clusters_to_search W key)
                (if PyStr.contains star (pk_role key) then None else Some (pk_role key))
                [] s) as [new [Hnew Hall]].
    exists new. split.
    + destruct (get_job_list_loop W _ _ [] s) as [[e|ks] s']; exact Hnew.
    + intros e Hin. destruct (Hall e Hin) as [(c & -> & Hc)|(api & ->)].
      * split; [discriminate|]. left. exists c. split; [reflexivity | exact Hc].
      * split; [discriminate|]. right. exists api. reflexivity.
Qed.

(** X10. Only the bare token [*] in the cluster field is expanded: with
    any other cluster field every key returned carries that field verbatim
    as its cluster; a field such as [us-*] is not matched against the
    registered clusters but looked up as one cluster of that name. *)
Theorem get_jobs_matching_key_cluster_verbatim (key : PartialJobKey) (s : state)
    (found : list AuroraJobKey) (s' : state) :
  pk_cluster key <> "*" ->
  get_jobs_matching_key W key s = (inr found, s') ->
  forall k, List.In k found -> jk_cluster k = pk_cluster key.
Proof.
  intros Hne Hrun k Hk. destruct (is_fully_bound key) eqn:Hb.
  - rewrite (get_jobs_matching_key_bound W key s Hb) in Hrun.
    destruct (AuroraJobKey_init _ _ _ _) as [e|k0] eqn:Hk0; [discriminate|].
    inversion Hrun; subst. destruct Hk as [<-|[]].
    apply AuroraJobKey_init_inr in Hk0. destruct Hk0 as [-> _]. reflexivity.
  - rewrite (get_jobs_matching_key_unbound W key s Hb) in Hrun.
    destruct (get_job_list W _ _ s) as [[e|jobs] s1] eqn:Hlist; [discriminate|].
    inversion Hrun; subst. apply filter_job_list_In in Hk. destruct Hk as [Hin _].
    pose proof (get_job_list_clusters W _ _ _ _ _ Hlist k Hin) as Hc.
    unfold clusters_to_search in Hc.
    rewrite (proj2 (String.eqb_neq _ _) Hne) in Hc.
    destruct Hc as [Hc|[]]. congruence.
Qed.

End ResolverEffects.

Lemma get_jobs_matching_key_cluster_verbatim_witness :
  let key := mkPartialJobKey "clusterA" "*" "prod" "*" in
  let k := mkAuroraJobKey "clusterA" "web" "prod" "frontend" in
  pk_cluster key <> "*" /\
  fst (get_jobs_matching_key Sample.world key initial_state) = inr [k] /\
  jk_cluster k = pk_cluster key.
Proof.
  cbv zeta. split; [discriminate|]. split; [reflexivity|].
  apply (get_jobs_matching_key_cluster_verbatim Sample.world
           (mkPartialJobKey "clusterA" "*" "prod" "*") initial_state
           [mkAuroraJobKey "clusterA" "web" "prod" "frontend"]
           (snd (get_jobs_matching_key Sample.world
                   (mkPartialJobKey "clusterA" "*" "prod" "*") initial_state))).
  - discriminate.
  - reflexivity.
  - left. reflexivity.
Defined.

Example cluster_glob_searched_as_one_cluster :
  events (snd (get_jobs_matching_key Sample.world
                 (mkPartialJobKey "cluster*" "web" "prod" "frontend") initial_state)) =
  [MakeClient "cluster*";
   GetJobs {| client_id := 0; client_cluster := "cluster*" |} (Some "web")].
Proof. reflexivity. Qed.

(** ** get_job_status *)

Section Status.

Context {Task : Type} (W : World)
        (check_status : list event -> Client -> AuroraJobKey
                        -> exn + StatusResponse Task).

(** The call, spelled out on the outcome of [get_api]. *)
Lemma get_job_status_step (key : AuroraJobKey) (s : state) :
  get_job_status W check_status key s =
  match get_api W (jk_cluster key) s with
  | (inl e, s1) => (inl e, s1)
  | (inr api, s1) =>
      (match check_status (events s1) api key with
       | inl e => inl e
       | inr resp =>
           if bool_decide (status_responseCode resp <> OK)
           then inl (CommandError EXIT_INVALID_PARAMETER (status_message resp))
           else match read_tasks resp with
                | inl e => inl e
                | inr tasks => inr (tasks_or_none tasks)
                end
       end, s1)
  end.
Proof.
  unfold get_job_status. unfold bind at 1.
  destruct (get_api W (jk_cluster key) s) as [[e|api] s1]; [reflexivity|].
  unfold bind at 1. simpl. unfold bind at 1, lift.
  destruct (check_status (events s1) api key) as [e|resp]; [reflexivity|].
  destruct (bool_decide (status_responseCode resp <> OK)); [reflexivity|].
  unfold bind. destruct (read_tasks resp); reflexivity.
Qed.

(** X11. A status query changes the session exactly as [get_api] for the
    key's cluster does, whether the scheduler accepts the query or not: a
    client obtained for the query is in the cache afterwards and the next
    [get_api] for that cluster returns it without building anything. *)
Theorem get_job_status_session (key : AuroraJobKey) (s : state) :
  snd (get_job_status W check_status key s) = snd (get_api W (jk_cluster key) s) /\
  forall api s1, get_api W (jk_cluster key) s = (inr api, s1) ->
    get_api W (jk_cluster key) (snd (get_job_status W check_status key s))
    = (inr api, s1).
Proof.
  rewrite get_job_status_step.
  destruct (get_api W (jk_cluster key) s) as [[e|api] s1] eqn:Hapi.
  - split; [reflexivity | intros ? ? H; discriminate H].
  - split; [reflexivity|]. intros api' s1' H. inversion H; subst. simpl.
    apply get_api_cached. apply (get_api_result_cached W _ _ _ _ Hapi).
Qed.

(** X12. Whatever a status query raises is one of these: what
    [make_client] raised, called because the key's cluster had no client
    yet; what the status call [api.check_status] raised; the
    [CommandError(EXIT_INVALID_PARAMETER, message)] carrying the message of
    a response whose code is not [OK]; or, after an [OK] response, the
    [AttributeError] of reading the tasks of a payload that is not there. *)
Theorem get_job_status_errors (key : AuroraJobKey) (s : state) (e : exn) :
  fst (get_job_status W check_status key s) = inl e ->
  (apis s !! jk_cluster key = None /\
   make_client_raises W (events s) (jk_cluster key) = Some e)
  \/
  exists api s1,
    get_api W (jk_cluster key) s = (inr api, s1) /\
    (check_status (events s1) api key = inl e
     \/
     exists resp,
       check_status (events s1) api key = inr resp /\
       ((status_responseCode resp <> OK /\
         e = CommandError EXIT_INVALID_PARAMETER (status_message resp))
        \/
        (status_responseCode resp = OK /\
         status_result resp = None /\
         e = AttributeError
               "'NoneType' object has no attribute 'scheduleStatusResult'")
        \/
        (status_responseCode resp = OK /\
         (exists res, status_result resp = Some res /\
                      scheduleStatusResult res = None) /\
         e = AttributeError "'NoneType' object has no attribute 'tasks'"))).
Proof.
  rewrite get_job_status_step.
  destruct (get_api W (jk_cluster key) s) as [[e'|api] s1] eqn:Hapi.
  - simpl. intros H. inversion H; subst e'. left.
    destruct (get_api_error W _ _ _ _ Hapi) as (Hc & Hm & _). auto.
  - simpl. intros H. right. exists api, s1. split; [reflexivity|].
    destruct (check_status (events s1) api key) as [e'|resp];
      [left; congruence|].
    right. exists resp. split; [reflexivity|].
    destruct (decide (status_responseCode resp = OK)) as [Hok|Hko].
    + rewrite (bool_decide_eq_false_2 (_ <> OK)) in H by tauto. right.
      unfold read_tasks in H.
      destruct (status_result resp) as [res|] eqn:Hres; simpl in H.
      * destruct (scheduleStatusResult res) as [ssr|] eqn:Hssr; simpl in H;
          [discriminate H|].
        right. split; [exact Hok|]. split; [eauto | inversion H; reflexivity].
      * left. split; [exact Hok|]. split; [reflexivity | inversion H; reflexivity].
    + rewrite (bool_decide_eq_true_2 _ Hko) in H. left.
      split; [exact Hko | congruence].
Qed.

(** X13. A status query never returns an empty list: when the scheduler
    answers [OK] with no task list or an empty one the result is [None],
    and a list that is returned is the scheduler's task list, unchanged. *)
Theorem get_job_status_tasks (key : AuroraJobKey) (s : state)
    (r : option (list Task)) :
  fst (get_job_status W check_status key s) = inr r ->
  exists api s1 resp res ssr,
    get_api W (jk_cluster key) s = (inr api, s1) /\
    check_status (events s1) api key = inr resp /\
    status_responseCode resp = OK /\
    status_result resp = Some res /\
    scheduleStatusResult res = Some ssr /\
    match r with
    | Some tasks => tasks <> [] /\ ssr_tasks ssr = Some tasks
    | None => ssr_tasks ssr = None \/ ssr_tasks ssr = Some []
    end.
Proof.
  rewrite get_job_status_step.
  destruct (get_api W (jk_cluster key) s) as [[e'|api] s1] eqn:Hapi;
    [intros H; discriminate H|].
  simpl. destruct (check_status (events s1) api key) as [e'|resp] eqn:Hresp;
    [intros H; discriminate H|].
  destruct (decide (status_responseCode resp = OK)) as [Hok|Hko].
  - rewrite (bool_decide_eq_false_2 (_ <> OK)) by tauto. unfold read_tasks.
    destruct (status_result resp) as [res|] eqn:Hres; simpl;
      [|intros H; discriminate H].
    destruct (scheduleStatusResult res) as [ssr|] eqn:Hssr; simpl;
      [|intros H; discriminate H].
    intros H. exists api, s1, resp, res, ssr.
    repeat (split; [reflexivity || assumption|]).
    inversion H; subst r.
    destruct (ssr_tasks ssr) as [[|t ts]|]; simpl.
    + right. reflexivity.
    + split; [discriminate | reflexivity].
    + left. reflexivity.
  - rewrite (bool_decide_eq_true_2 _ Hko). intros H. discriminate H.
Qed.

End Status.

Lemma get_job_status_errors_witness :
  let key := mkAuroraJobKey "clusterA" "web" "prod" "backend" in
  fst (get_job_status Sample.world rejecting_check_status key initial_state) =
    inl (CommandError EXIT_INVALID_PARAMETER "unknown job") /\
  exists api s1 resp,
    get_api Sample.world "clusterA" initial_state = (inr api, s1) /\
    rejecting_check_status (events s1) api key = inr resp /\
    status_responseCode resp <> OK /\
    CommandError EXIT_INVALID_PARAMETER "unknown job" =
    CommandError EXIT_INVALID_PARAMETER (status_message resp).
Proof.
  cbv zeta. split; [reflexivity|].
  destruct (get_job_status_errors Sample.world rejecting_check_status
              (mkAuroraJobKey "clusterA" "web" "prod" "backend") initial_state
              (CommandError EXIT_INVALID_PARAMETER "unknown job") eq_refl)
    as [[_ H]|(api & s1 & Hapi & [H|(resp & Hresp & [[Hko He]|[H|H]])])].
  - discriminate H.
  - discriminate H.
  - exists api, s1, resp. auto.
  - destruct H as (_ & _ & H). discriminate H.
  - destruct H as (_ & _ & H). discriminate H.
Defined.

Example get_job_status_failures :
  let key := mkAuroraJobKey "clusterA" "web" "prod" "frontend" in
  fst (get_job_status Sample.world failing_check_status key initial_state) =
    inl (ClientError "timed out") /\
  fst (get_job_status Sample.world bare_check_status key initial_state) =
    inl (AttributeError "'NoneType' object has no attribute 'scheduleStatusResult'") /\
  fst (get_job_status Sample.flaky_world sample_check_status key initial_state) =
    inl (ClientError "connection refused").
Proof. repeat split. Qed.

Lemma get_job_status_tasks_witness :
  let key := mkAuroraJobKey "clusterA" "web" "prod" "frontend" in
  fst (get_job_status Sample.world sample_check_status key initial_state) =
    inr (Some ["frontend-0"; "frontend-1"]) /\
  fst (get_job_status Sample.world sample_check_status
         (mkAuroraJobKey "clusterA" "web" "prod" "backend") initial_state) = inr None /\
  exists api s1 resp res ssr,
    get_api Sample.world "clusterA" initial_state = (inr api, s1) /\
    sample_check_status (events s1) api key = inr resp /\
    status_responseCode resp = OK /\
    status_result resp = Some res /\
    scheduleStatusResult res = Some ssr /\
    ["frontend-0"; "frontend-1"] <> [] /\
    ssr_tasks ssr = Some ["frontend-0"; "frontend-1"].
Proof.
  cbv zeta. split; [reflexivity|]. split; [reflexivity|].
  apply (get_job_status_tasks Sample.world sample_check_status
           (mkAuroraJobKey "clusterA" "web" "prod" "frontend") initial_state
           (Some ["frontend-0"; "frontend-1"]) eq_refl).
Defined.

(** ** From the raw key to the job *)

(** X14. A raw key with three [/], no [*], no [?] and no empty segment
    parses to the pattern of its four segments, and that pattern resolves,
    without any remote call, to the one job key made of those segments. *)
Theorem parse_then_resolve_literal (W : World) (raw : string) (s : state) :
  count_char slash raw = 3%nat ->
  PyStr.contains star raw = false ->
  PyStr.contains question raw = false ->
  List.Forall (fun seg => seg <> "") (PyStr.split slash raw) ->
  exists c r e n,
    PyStr.split slash raw = [c; r; e; n] /\
    parse_partial_jobkey raw = inr (mkPartialJobKey c r e n) /\
    get_jobs_matching_key W (mkPartialJobKey c r e n) s =
    (inr [mkAuroraJobKey c r e n], s).
Proof.
  intros Hcount Hstar Hquestion Hsegs.
  pose proof (split_length_count slash raw) as Hlen. rewrite Hcount in Hlen.
  assert (Hne : star <> slash) by discriminate.
  assert (Hne' : question <> slash) by discriminate.
  pose proof (contains_split star slash raw Hne) as Hc. rewrite Hstar in Hc.
  pose proof (contains_split question slash raw Hne') as Hq. rewrite Hquestion in Hq.
  unfold parse_partial_jobkey.
  destruct (PyStr.split slash raw) as [|c [|r [|e [|n [|x l]]]]];
    simpl in Hlen; try discriminate Hlen.
  exists c, r, e, n. split; [reflexivity|]. split; [reflexivity|].
  symmetry in Hc, Hq. apply existsb_false_Forall in Hc, Hq.
  set (key := mkPartialJobKey c r e n).
  assert (Hc' : List.Forall (fun f => PyStr.contains star f = false) (pk_fields key))
    by exact Hc.
  rewrite (get_jobs_matching_key_bound W key s (proj2 (is_fully_bound_fields key) Hc')).
  rewrite (AuroraJobKey_init_valid (pk_cluster key) (pk_role key) (pk_env key)
             (pk_name key)); [reflexivity|].
  apply (valid_fields_of_pattern key Hc').
  unfold key, pk_fields. simpl.
  rewrite List.Forall_forall in *. intros f Hf. split; [apply Hsegs | apply Hq]; exact Hf.
Qed.

Lemma parse_then_resolve_literal_witness :
  count_char slash "clusterA/web/prod/frontend" = 3%nat /\
  PyStr.contains star "clusterA/web/prod/frontend" = false /\
  PyStr.contains question "clusterA/web/prod/frontend" = false /\
  List.Forall (fun seg => seg <> "") (PyStr.split slash "clusterA/web/prod/frontend") /\
  exists c r e n,
    PyStr.split slash "clusterA/web/prod/frontend" = [c; r; e; n] /\
    parse_partial_jobkey "clusterA/web/prod/frontend" = inr (mkPartialJobKey c r e n) /\
    get_jobs_matching_key Sample.world (mkPartialJobKey c r e n) initial_state =
    (inr [mkAuroraJobKey c r e n], initial_state).
Proof.
  assert (Hsegs : List.Forall (fun seg => seg <> "")
                    (PyStr.split slash "clusterA/web/prod/frontend"))
    by (repeat constructor; discriminate).
  split; [reflexivity|]. split; [reflexivity|]. split; [reflexivity|].
  split; [exact Hsegs|].
  apply (parse_then_resolve_literal Sample.world "clusterA/web/prod/frontend"
           initial_state eq_refl eq_refl eq_refl Hsegs).
Defined.
